(** * cruncher.py: system call status and application usage, aggregated

    A shallow embedding of [src/cruncher.py] and the properties of its
    status normaliser, its aggregation step and its two CSV reports.

    Conventions of the embedding.
    - A Python [str] is a [string]; the trigger words of the normaliser are
      ASCII, so containment on the UTF-8 bytes and on the code points agree.
    - A Python [dict] keeps insertion order: it is an association list with
      unique keys, updated in place or extended at its end ([dict_set]).
    - A Python [set] of strings is a [pyset]: its members, a [gset string],
      with the [add] calls that built it. The order in which a [for] loop
      visits a set is not fixed by the language and may depend on how the
      set was built, so it is the parameter [set_iter], constrained only
      to enumerate the members; two loops over one unchanged set visit it
      in the same order.
    - An exception that leaves a function is the [Raise] arm of [result]. *)

From Stdlib Require Import ZArith Ascii DecimalString.
From stdpp Require Import gmap strings list.

Local Open Scope string_scope.
Local Open Scope list_scope.

(* stdpp's solvers clear hypotheses by name. *)
#[local] Set Warnings "-clear-no-such-hyp".

(** ** Exceptions *)

Inductive exn : Type :=
| KeyError (key : string)
| IndexError
| ValueError
| OverflowError.

Inductive result (A : Type) : Type :=
| Return (a : A)
| Raise (e : exn).
Arguments Return {A} a.
Arguments Raise {A} e.

#[global] Instance result_ret : MRet result := @Return.
#[global] Instance result_bind : MBind result := λ A B k m,
  match m with
  | Return a => k a
  | Raise e => Raise e
  end.

Definition succeeds {A} (m : result A) : Prop := ∃ a, m = Return a.

(** [for x in xs: body] where the body may raise. *)
Fixpoint for_each {A S} (body : A → S → result S) (xs : list A) (s : S)
  : result S :=
  match xs with
  | [] => Return s
  | x :: xs' => s' ← body x s; for_each body xs' s'
  end.

(** ** Strings: the [in] operator and [str.endswith] *)

Fixpoint startswith (p s : string) : bool :=
  match p, s with
  | EmptyString, _ => true
  | String _ _, EmptyString => false
  | String a p', String b s' => bool_decide (a = b) && startswith p' s'
  end.

(** [sub in s] on two strings. *)
Fixpoint contains (sub s : string) : bool :=
  startswith sub s ||
  match s with
  | EmptyString => false
  | String _ s' => contains sub s'
  end.

(** What [contains] decides. *)
Definition Substring (sub s : string) : Prop :=
  ∃ pre post, s = pre +:+ sub +:+ post.

(** ** The status normaliser (cruncher.py, lines 170-186) *)

Definition normalize (status_str : string) : string :=
  if bool_decide (String.length status_str = 0) then "NOT_IMPL"
  else if contains "incomplete" status_str then "INCOMPLETE"
  else if contains "registration missing" status_str then "REG_MISS"
  else if contains "stubbed" status_str then "STUBBED"
  else if contains "planned" status_str then "PLANNED"
  else if contains "progress" status_str then "IN_PROGRESS"
  else if contains "broken" status_str then "BROKEN"
  else if contains "okay" status_str then "OKAY"
  else status_str.

(** The precedence table of the specification, read top to bottom. *)
Inductive Normalized (s : string) : string → Prop :=
| N_empty :
    s = "" → Normalized s "NOT_IMPL"
| N_incomplete :
    s ≠ "" → Substring "incomplete" s → Normalized s "INCOMPLETE"
| N_reg_miss :
    s ≠ "" → ¬ Substring "incomplete" s →
    Substring "registration missing" s → Normalized s "REG_MISS"
| N_stubbed :
    s ≠ "" → ¬ Substring "incomplete" s →
    ¬ Substring "registration missing" s →
    Substring "stubbed" s → Normalized s "STUBBED"
| N_planned :
    s ≠ "" → ¬ Substring "incomplete" s →
    ¬ Substring "registration missing" s → ¬ Substring "stubbed" s →
    Substring "planned" s → Normalized s "PLANNED"
| N_progress :
    s ≠ "" → ¬ Substring "incomplete" s →
    ¬ Substring "registration missing" s → ¬ Substring "stubbed" s →
    ¬ Substring "planned" s →
    Substring "progress" s → Normalized s "IN_PROGRESS"
| N_broken :
    s ≠ "" → ¬ Substring "incomplete" s →
    ¬ Substring "registration missing" s → ¬ Substring "stubbed" s →
    ¬ Substring "planned" s → ¬ Substring "progress" s →
    Substring "broken" s → Normalized s "BROKEN"
| N_okay :
    s ≠ "" → ¬ Substring "incomplete" s →
    ¬ Substring "registration missing" s → ¬ Substring "stubbed" s →
    ¬ Substring "planned" s → ¬ Substring "progress" s →
    ¬ Substring "broken" s →
    Substring "okay" s → Normalized s "OKAY"
| N_raw :
    s ≠ "" → ¬ Substring "incomplete" s →
    ¬ Substring "registration missing" s → ¬ Substring "stubbed" s →
    ¬ Substring "planned" s → ¬ Substring "progress" s →
    ¬ Substring "broken" s → ¬ Substring "okay" s →
    Normalized s s.

(** ** Ordered dictionaries *)

Definition dict (V : Type) : Type := list (string * V).

Fixpoint dict_get {V} (k : string) (d : dict V) : option V :=
  match d with
  | [] => None
  | (k', v) :: d' => if decide (k = k') then Some v else dict_get k d'
  end.

(** [k in d] and [k in d.keys()]. *)
Definition dict_mem {V} (k : string) (d : dict V) : bool :=
  match dict_get k d with
  | Some _ => true
  | None => false
  end.

(** [d[k]] read: a missing key raises [KeyError]. *)
Definition getitem {V} (d : dict V) (k : string) : result V :=
  match dict_get k d with
  | Some v => Return v
  | None => Raise (KeyError k)
  end.

(** [d[k] = v]: an existing key keeps its place, a new one goes last. *)
Fixpoint dict_set {V} (k : string) (v : V) (d : dict V) : dict V :=
  match d with
  | [] => [(k, v)]
  | (k', v') :: d' =>
      if decide (k = k') then (k', v) :: d' else (k', v') :: dict_set k v d'
  end.

Definition dict_keys {V} (d : dict V) : list string := d.*1.

(** ** The three global dictionaries (cruncher.py, lines 36-58) *)

Record syscall_entry : Type := {
  sys_id : Z;
  sys_name : string;
  sys_status : string;
  sys_apps : list string
}.

Record undefined_entry : Type := {
  und_name : string;
  und_apps : list string
}.

Record state : Type := {
  apps : dict (dict (list string));
  syscalls : dict syscall_entry;
  undefined_syscalls : dict undefined_entry
}.

Definition STATIC_DATA : string := "static_data".
Definition DYNAMIC_DATA : string := "dynamic_data".
Definition SYSCALLS_DATA : string := "system_calls".

(** The keys of the literal of lines 84-94, in the order written there. *)
Definition bucket_keys : list string :=
  ["OKAY"; "ABSENT"; "NOT_IMPL"; "INCOMPLETE"; "REG_MISS"; "STUBBED";
   "BROKEN"; "IN_PROGRESS"; "PLANNED"].

Definition empty_buckets : dict (list string) :=
  [("OKAY", []); ("ABSENT", []); ("NOT_IMPL", []); ("INCOMPLETE", []);
   ("REG_MISS", []); ("STUBBED", []); ("BROKEN", []); ("IN_PROGRESS", []);
   ("PLANNED", [])].

(** A parsed application document: a JSON object whose members are objects
    whose members are collections of symbols; the innermost list is the
    sequence a [for] loop over the collection yields. *)
Definition json : Type := dict (dict (list string)).

(** ** Sets of strings *)

Record pyset : Type := {
  members : gset string;
  history : list string
}.

(** [set()] *)
Definition set_new : pyset := {| members := ∅; history := [] |}.

(** [s.add(x)] *)
Definition set_add (x : string) (s : pyset) : pyset :=
  {| members := members s ∪ {[x]}; history := history s ++ [x] |}.

(** ** process_application_json (cruncher.py, lines 61-118) *)

Section aggregator.
(** The visiting order of a [for] loop over a set. *)
Variable set_iter : pyset → list string.

(** [for symbol in data: local_set.add(symbol)] *)
Definition add_symbols (local_set : pyset) (data : list string) : pyset :=
  foldl (λ acc symbol, set_add symbol acc) local_set data.

(** Lines 69-81. *)
Definition collect_symbols (json_data : json) : result pyset :=
  let local_set := set_new in
  local_set ←
    (if dict_mem STATIC_DATA json_data then
       section ← getitem json_data STATIC_DATA;
       static_data ← getitem section SYSCALLS_DATA;
       mret (add_symbols local_set static_data)
     else mret local_set);
  if dict_mem DYNAMIC_DATA json_data then
    section ← getitem json_data DYNAMIC_DATA;
    dynamic_data ← getitem section SYSCALLS_DATA;
    mret (add_symbols local_set dynamic_data)
  else mret local_set.

(** Lines 96-100, the body of the first loop. *)
Definition place_symbol (app_name symbol : string) (st : state)
  : result state :=
  status ←
    (if dict_mem symbol (syscalls st) then
       entry ← getitem (syscalls st) symbol;
       mret (sys_status entry)
     else mret "ABSENT");
  buckets ← getitem (apps st) app_name;
  bucket ← getitem buckets status;
  mret {| apps := dict_set app_name
                    (dict_set status (bucket ++ [symbol]) buckets) (apps st);
          syscalls := syscalls st;
          undefined_syscalls := undefined_syscalls st |}.

(** Lines 105-109: [for s in syscalls: if s == symbol: found = True; break] *)
Fixpoint linear_search {V} (symbol : string) (d : dict V) : bool :=
  match d with
  | [] => false
  | (s, _) :: d' => if decide (s = symbol) then true
                    else linear_search symbol d'
  end.

(** Lines 105-118, the body of the second loop. *)
Definition record_symbol (app_name symbol : string) (st : state)
  : result state :=
  let found := linear_search symbol (syscalls st) in
  if found then
    entry ← getitem (syscalls st) symbol;
    mret {| apps := apps st;
            syscalls :=
              dict_set symbol
                {| sys_id := sys_id entry; sys_name := sys_name entry;
                   sys_status := sys_status entry;
                   sys_apps := sys_apps entry ++ [app_name] |}
                (syscalls st);
            undefined_syscalls := undefined_syscalls st |}
  else
    let undefined :=
      if negb (dict_mem symbol (undefined_syscalls st)) then
        dict_set symbol {| und_name := symbol; und_apps := [] |}
          (undefined_syscalls st)
      else undefined_syscalls st in
    entry ← getitem undefined symbol;
    mret {| apps := apps st;
            syscalls := syscalls st;
            undefined_syscalls :=
              dict_set symbol
                {| und_name := und_name entry;
                   und_apps := und_apps entry ++ [app_name] |}
                undefined |}.

Definition process_application_json (app_name : string) (json_data : json)
    (st : state) : result state :=
  local_set ← collect_symbols json_data;
  let st := {| apps := dict_set app_name empty_buckets (apps st);
               syscalls := syscalls st;
               undefined_syscalls := undefined_syscalls st |} in
  st ← for_each (place_symbol app_name) (set_iter local_set) st;
  for_each (record_symbol app_name) (set_iter local_set) st.

(** ** walk_application_json_folder (cruncher.py, lines 121-134)

    The directory walk is input: the files it visits, in the order it
    visits them, as (directory, file name, parsed content). *)

Definition os_sep : string := "/".

Fixpoint endswith (s suffix : string) : bool :=
  bool_decide (s = suffix) ||
  match s with
  | EmptyString => false
  | String _ s' => endswith s' suffix
  end.

(** [file[:-5]] *)
Definition strip5 (file : string) : string :=
  String.substring 0 (String.length file - 5) file.

Definition visit (entry : string * string * json) (st : state)
  : result state :=
  let '(subdir, file, json_data) := entry in
  let filepath := subdir +:+ os_sep +:+ file in
  if endswith filepath ".json" then
    process_application_json (strip5 file) json_data st
  else mret st.

Definition walk_application_json_folder
    (visited : list (string * string * json)) (st : state) : result state :=
  for_each visit visited st.

(** The applications a walk loads: name and document, in load order. *)
Definition loaded (visited : list (string * string * json))
  : list (string * json) :=
  omap (λ '(subdir, file, json_data),
          if endswith (subdir +:+ os_sep +:+ file) ".json"
          then Some (strip5 file, json_data) else None) visited.
End aggregator.

(** ** process_syscall_spreadsheet (cruncher.py, lines 137-189) *)

(** A Python [float]: [Finite m e] is the number [m * 2^e]. *)
Inductive pyfloat : Type :=
| Finite (m e : Z)
| Infinity (negative : bool)
| NaN.

(** What [worksheet.cell_value] returns: the text of a text, empty or blank
    cell, the float of a number or date cell, the integer of a boolean or
    error cell. *)
Inductive cell : Type :=
| Text (s : string)
| Number (x : pyfloat)
| Integer (z : Z).

(** A row of the worksheet: the name and status columns hold text. *)
Record row : Type := {
  row_rax : cell;
  row_name : string;
  row_status : string
}.

Section spreadsheet.
(** [int(s)] on a string: [None] stands for its [ValueError]. *)
Variable str_to_int : string → option Z.

(** The builtin [int] on a cell value. A float is truncated towards zero;
    not-a-number raises [ValueError], an infinity [OverflowError]. *)
Definition int (v : cell) : result Z :=
  match v with
  | Text s =>
      match str_to_int s with
      | Some z => Return z
      | None => Raise ValueError
      end
  | Number (Finite m e) =>
      Return (if (0 <=? e)%Z then m * 2 ^ e else Z.quot m (2 ^ (- e)))%Z
  | Number NaN => Raise ValueError
  | Number (Infinity _) => Raise OverflowError
  | Integer z => Return z
  end.

(** Lines 160-165: [try: ... int(...) except ValueError: ... -1]. *)
Definition parse_id (v : cell) : result Z :=
  match int v with
  | Return z => Return z
  | Raise ValueError => Return (-1)%Z
  | Raise e => Raise e
  end.

(** The three columns built so far: ids, names, statuses. *)
Definition data_sheet : Type := list Z * list string * list string.

(** Lines 159-187, the body of the loop over the data rows. *)
Definition read_row (r : row) (sheet : data_sheet) : result data_sheet :=
  let '(ids, names, stats) := sheet in
  id ← parse_id (row_rax r);
  mret (ids ++ [id], names ++ [row_name r],
        stats ++ [normalize (row_status r)]).

(** [worksheet] holds every row of the first sheet, the header first;
    [range(1, worksheet.nrows)] skips it. *)
Definition process_syscall_spreadsheet (worksheet : list row)
  : result data_sheet :=
  for_each read_row (drop 1 worksheet) ([], [], []).
End spreadsheet.

(** ** The reports (cruncher.py, lines 192-222) *)

(** [str(n)] for the result of [len]. *)
Definition str_nat (n : nat) : string := NilZero.string_of_uint (Nat.to_uint n).

(** ["{},{},...".format(...)] *)
Definition csv (fields : list string) : string := String.concat "," fields.

Definition apps_header : string :=
  csv ["app"; "total"; "okay"; "not_impl"; "reg_miss"; "incomplete";
       "stubbed"; "planned"; "broken"; "in_progress"; "absent"].

(** [len(apps[a][key])] *)
Definition bucket_len (buckets : dict (list string)) (key : string)
  : result nat :=
  bucket ← getitem buckets key; mret (length bucket).

(** Lines 199-211, one application. *)
Definition print_app (a : string) (st : state) : result string :=
  buckets ← getitem (apps st) a;
  okay ← bucket_len buckets "OKAY";
  not_impl ← bucket_len buckets "NOT_IMPL";
  incomplete ← bucket_len buckets "INCOMPLETE";
  reg_miss ← bucket_len buckets "REG_MISS";
  stubbed ← bucket_len buckets "STUBBED";
  planned ← bucket_len buckets "PLANNED";
  in_progress ← bucket_len buckets "IN_PROGRESS";
  broken ← bucket_len buckets "BROKEN";
  absent ← bucket_len buckets "ABSENT";
  let total := okay + not_impl + incomplete + reg_miss + stubbed + planned
               + in_progress + broken in
  mret (csv [a; str_nat total; str_nat okay; str_nat not_impl;
             str_nat reg_miss; str_nat incomplete; str_nat stubbed;
             str_nat planned; str_nat broken; str_nat in_progress;
             str_nat absent]).

(** The lines written to standard output. *)
Definition print_apps (st : state) : result (list string) :=
  lines ← for_each (λ a lines, line ← print_app a st; mret (lines ++ [line]))
             (dict_keys (apps st)) [];
  mret (apps_header :: lines).

Definition syscalls_header : string := csv ["syscall"; "status"; "num_apps"].

Definition print_syscalls (st : state) : result (list string) :=
  defined ← for_each (λ s lines,
                        entry ← getitem (syscalls st) s;
                        mret (lines ++ [csv [s; sys_status entry;
                                             str_nat (length (sys_apps entry))]]))
               (dict_keys (syscalls st)) [];
  undefined ← for_each (λ s lines,
                          entry ← getitem (undefined_syscalls st) s;
                          mret (lines ++ [csv [s; "ABSENT";
                                               str_nat (length (und_apps entry))]]))
                 (dict_keys (undefined_syscalls st)) [];
  mret (syscalls_header :: defined ++ undefined).

(** ** main (cruncher.py, lines 238-251): load and aggregate *)

(** [xs[i]] on a list. *)
Definition list_item {A} (xs : list A) (i : nat) : result A :=
  match xs !! i with
  | Some x => Return x
  | None => Raise IndexError
  end.

Section main.
Variable set_iter : pyset → list string.
Variable str_to_int : string → option Z.

(** Lines 243-249. *)
Definition fill_syscalls (sheet : data_sheet) : result (dict syscall_entry) :=
  let '(ids, names, stats) := sheet in
  for_each (λ i table,
              id ← list_item ids i;
              name ← list_item names i;
              status ← list_item stats i;
              mret (dict_set name
                      {| sys_id := id; sys_name := name;
                         sys_status := status; sys_apps := [] |} table))
    (seq 0 (length ids)) [].

(** Lines 238-251: the state when the reports are about to be printed. The
    three dictionaries are empty when [main] starts. *)
Definition aggregate (worksheet : list row)
    (visited : list (string * string * json)) : result state :=
  sheet ← process_syscall_spreadsheet str_to_int worksheet;
  table ← fill_syscalls sheet;
  walk_application_json_folder set_iter visited
    {| apps := []; syscalls := table; undefined_syscalls := [] |}.

(** [main] with the flags [--apps] and [--syscalls]: the lines it writes. *)
Definition main (args_apps args_syscalls : bool) (worksheet : list row)
    (visited : list (string * string * json)) : result (list string) :=
  st ← aggregate worksheet visited;
  apps_report ← (if args_apps then print_apps st else mret []);
  syscalls_report ← (if args_syscalls then print_syscalls st else mret []);
  mret (apps_report ++ syscalls_report).
End main.

(** ** Vocabulary of the statements *)

(** The status lines 96-99 give a symbol. *)
Definition status_of (table : dict syscall_entry) (symbol : string) : string :=
  match dict_get symbol table with
  | Some entry => sys_status entry
  | None => "ABSENT"
  end.

(** The symbols listed under [system_calls] in one section of a document. *)
Definition section_symbols (key : string) (json_data : json) : list string :=
  match dict_get key json_data with
  | Some section => default [] (dict_get SYSCALLS_DATA section)
  | None => []
  end.

(** The deduplicated symbol set of a document. *)
Definition symbols_of (json_data : json) : gset string :=
  match collect_symbols json_data with
  | Return local_set => members local_set
  | Raise _ => ∅
  end.

(** More applications on the list of a status table entry. *)
Definition add_apps (names : list string) (entry : syscall_entry)
  : syscall_entry :=
  {| sys_id := sys_id entry; sys_name := sys_name entry;
     sys_status := sys_status entry;
     sys_apps := sys_apps entry ++ names |}.

Definition bump_sys (app_name : string) : syscall_entry → syscall_entry :=
  add_apps [app_name].

(** One more application on the list of an undefined symbol, whose entry is
    made when there is none. *)
Definition bump_und (app_name symbol : string) (old : option undefined_entry)
  : undefined_entry :=
  match old with
  | Some entry => {| und_name := und_name entry;
                     und_apps := und_apps entry ++ [app_name] |}
  | None => {| und_name := symbol; und_apps := [app_name] |}
  end.

(** The float cells [int] does not convert. *)
Definition is_infinite (v : cell) : bool :=
  match v with
  | Number (Infinity _) => true
  | _ => false
  end.

(** [len(buckets[key])], zero for a key that is not there. *)
Definition bucket_size (buckets : dict (list string)) (key : string) : nat :=
  length (default [] (dict_get key buckets)).

(** The line [print_apps] writes for an application with these buckets. *)
Definition app_line (a : string) (buckets : dict (list string)) : string :=
  csv [a;
       str_nat (sum_list (length <$> (filter (λ kv, kv.1 ≠ "ABSENT") buckets).*2));
       str_nat (bucket_size buckets "OKAY");
       str_nat (bucket_size buckets "NOT_IMPL");
       str_nat (bucket_size buckets "REG_MISS");
       str_nat (bucket_size buckets "INCOMPLETE");
       str_nat (bucket_size buckets "STUBBED");
       str_nat (bucket_size buckets "PLANNED");
       str_nat (bucket_size buckets "BROKEN");
       str_nat (bucket_size buckets "IN_PROGRESS");
       str_nat (bucket_size buckets "ABSENT")].

(** An instance of [str_to_int] for the examples: the strings made of an
    optional sign and decimal digits. Python's [int] accepts more (blanks
    around the number, underscores between digits). *)
Fixpoint digits_value (acc : Z) (s : string) : option Z :=
  match s with
  | EmptyString => Some acc
  | String c s' =>
      let n := Ascii.nat_of_ascii c in
      if (48 <=? n)%nat && (n <=? 57)%nat
      then digits_value (10 * acc + Z.of_nat (n - 48)) s'
      else None
  end.

Definition decimal_int (s : string) : option Z :=
  match s with
  | EmptyString => None
  | String "-"%char (String _ _ as s') => Z.opp <$> digits_value 0 s'
  | String "+"%char (String _ _ as s') => digits_value 0 s'
  | _ => digits_value 0 s
  end.

(** Every status the table gives a symbol of [symbols] is a bucket key. *)
Definition known_statuses (table : dict syscall_entry) (symbols : gset string)
  : Prop :=
  ∀ symbol entry,
    symbol ∈ symbols → dict_get symbol table = Some entry →
    sys_status entry ∈ bucket_keys.

(** An application the whole of which can be processed on a table: its
    document has the members the code reads and its symbols have known
    statuses. *)
Definition clean (table : dict syscall_entry) (p : string * json) : Prop :=
  succeeds (collect_symbols p.2) ∧ known_statuses table (symbols_of p.2).

(** The test for [clean]. *)
Definition cleanb (table : dict syscall_entry) (p : string * json) : bool :=
  match collect_symbols p.2 with
  | Return local_set =>
      forallb (λ s, bool_decide (status_of table s ∈ bucket_keys))
        (elements (members local_set))
  | Raise _ => false
  end.

(** ** Sample inputs *)

(** An order of visit for the samples: the one of [elements]. *)
Definition sample_iter (s : pyset) : list string := elements (members s).


Definition sample_sheet : list row :=
  [ {| row_rax := Text "RAX"; row_name := "Name"; row_status := "Status" |};
    {| row_rax := Number (Finite 57 0); row_name := "fork"; row_status := "" |};
    {| row_rax := Number (Finite 12 0); row_name := "brk";
       row_status := "okay, fully supported" |};
    {| row_rax := Text "n/a"; row_name := "vserver";
       row_status := "will not be done" |} ].

Definition sample_app1 : json :=
  [("static_data", [("system_calls", ["fork"; "brk"; "xyz_unknown"])])].

Definition sample_app2 : json :=
  [("static_data", [("system_calls", ["brk"])]);
   ("dynamic_data", [("system_calls", ["brk"; "xyz_unknown"])])].

Definition sample_app3 : json :=
  [("dynamic_data", [("system_calls", ["brk"; "vserver"])])].

Definition sample_visited : list (string * string * json) :=
  [("to_aggregate", "app1.json", sample_app1);
   ("to_aggregate", "notes.txt", sample_app3);
   ("to_aggregate/more", "app2.json", sample_app2)].

(** A walk whose last file references "vserver", of unrecognised status. *)
Definition sample_visited_unknown : list (string * string * json) :=
  sample_visited ++ [("to_aggregate/more", "app3.json", sample_app3)].

(** The state [main] has built from [sample_sheet] before the walk. *)
Definition sample_state : state :=
  {| apps := [];
     syscalls :=
       [("fork", {| sys_id := 57; sys_name := "fork";
                    sys_status := "NOT_IMPL"; sys_apps := [] |});
        ("brk", {| sys_id := 12; sys_name := "brk";
                   sys_status := "OKAY"; sys_apps := [] |});
        ("vserver", {| sys_id := -1; sys_name := "vserver";
                       sys_status := "will not be done"; sys_apps := [] |})];
     undefined_syscalls := [] |}.

(** ** Vocabulary of further statements *)

(** The buckets an application with these symbols has on a table: the nine
    keys, and under each the symbols of that status, none twice. *)
Definition buckets_of (table : dict syscall_entry) (symbols : gset string)
    (buckets : dict (list string)) : Prop :=
  dict_keys buckets = bucket_keys ∧
  ∀ key bucket,
    dict_get key buckets = Some bucket →
    NoDup bucket ∧
    ∀ s, s ∈ bucket ↔ s ∈ symbols ∧ status_of table s = key.

(** The references the two tables hold: the lengths of all their
    application lists. *)
Definition refs_recorded (st : state) : nat :=
  sum_list ((λ kv, length (sys_apps kv.2)) <$> syscalls st)
  + sum_list ((λ kv, length (und_apps kv.2)) <$> undefined_syscalls st).

(** ** Proofs: strings *)

Lemma startswith_spec p s : startswith p s = true ↔ ∃ post, s = p +:+ post.
Proof.
  revert s. induction p as [|a p IH]; intros s; simpl.
  - split; [intros _; by exists s | done].
  - destruct s as [|b s]; simpl.
    + split; [done | intros [post H]; discriminate].
    + rewrite andb_true_iff, bool_decide_eq_true, IH. split.
      * intros [-> [post ->]]. by exists post.
      * intros [post H]. injection H as -> ->. eauto.
Qed.

Lemma contains_spec sub s : contains sub s = true ↔ Substring sub s.
Proof.
  unfold Substring. induction s as [|b s IH]; simpl.
  - rewrite orb_false_r, startswith_spec. split.
    + intros [post H]. by exists "", post.
    + intros [[|c pre] [post H]]; simpl in H; [eauto | discriminate].
  - rewrite orb_true_iff, startswith_spec, IH. split.
    + intros [[post H] | (pre & post & H)].
      * by exists "", post.
      * exists (String b pre), post. simpl. by rewrite H.
    + intros [[|c pre] [post H]]; simpl in H.
      * left. eauto.
      * right. injection H as _ ->. eauto.
Qed.

Lemma contains_false sub s : contains sub s = false ↔ ¬ Substring sub s.
Proof. rewrite <- contains_spec. by destruct (contains sub s). Qed.

Lemma length_zero_empty (s : string) : String.length s = 0 ↔ s = "".
Proof. by destruct s. Qed.

Lemma normalize_Normalized s : Normalized s (normalize s).
Proof.
  unfold normalize.
  case_bool_decide as Hlen; rewrite length_zero_empty in Hlen.
  { by constructor. }
  repeat
    (match goal with
     | |- context [contains ?t s] =>
         let E := fresh "E" in
         destruct (contains t s) eqn:E;
         [apply contains_spec in E | apply contains_false in E]
     end;
     [solve [constructor; assumption] |]).
  by apply N_raw.
Qed.

(** The table determines the result: it relates a string to one value. *)
Lemma Normalized_functional s a b : Normalized s a → Normalized s b → a = b.
Proof. destruct 1; destruct 1; by subst. Qed.

(** C2: for every raw status string the normaliser returns exactly what the
    precedence table gives, first match wins: empty gives NOT_IMPL, then the
    triggers "incomplete", "registration missing", "stubbed", "planned",
    "progress", "broken", "okay" in this order, and a string with none of
    them is returned as it is. *)
Theorem normalize_precedence : ∀ s r, normalize s = r ↔ Normalized s r.
Proof.
  intros s r. split.
  - intros <-. apply normalize_Normalized.
  - intros Hr. apply (Normalized_functional s); [apply normalize_Normalized|done].
Qed.

(** C6: normalising twice is normalising once; each of the nine status
    constants is left as it is, and no trigger word occurs in any of them
    (containment is case-sensitive). *)
Theorem normalize_idempotent :
  (∀ s, normalize (normalize s) = normalize s) ∧
  Forall (λ c, normalize c = c) bucket_keys ∧
  Forall (λ c,
            Forall (λ trigger, ¬ Substring trigger c)
              ["incomplete"; "registration missing"; "stubbed"; "planned";
               "progress"; "broken"; "okay"])
    bucket_keys.
Proof.
  split; [|split].
  - intros s. destruct (normalize_Normalized s); try reflexivity.
    unfold normalize. case_bool_decide as Hlen.
    { by apply length_zero_empty in Hlen. }
    repeat
      match goal with
      | H : ¬ Substring ?t s |- context [contains ?t s] =>
          apply contains_false in H; rewrite H
      end.
    reflexivity.
  - repeat constructor.
  - unfold bucket_keys.
    repeat
      match goal with
      | |- Forall _ [] => constructor
      | |- Forall _ (_ :: _) => constructor
      end; by apply contains_false.
Qed.

(** ** Proofs: the exception monad and loops *)

Lemma bind_Return {A B} (m : result A) (k : A → result B) b :
  m ≫= k = Return b ↔ ∃ a, m = Return a ∧ k a = Return b.
Proof.
  destruct m as [a|e]; unfold mbind, result_bind.
  - split; [eauto | by intros (? & [= <-] & ?)].
  - split; [done | by intros (? & ? & ?)].
Qed.




(** The first element of a list that fails a test is determined. *)
Lemma first_failure_unique {A} (P : A → Prop) pre x post pre' y post' :
  pre ++ x :: post = pre' ++ y :: post' →
  Forall P pre → ¬ P x → Forall P pre' → ¬ P y →
  pre' = pre ∧ y = x.
Proof.
  intros Heq Hpre Hx. revert pre' Heq.
  induction Hpre as [|q pre Hq Hpre IH]; intros pre' Heq Hpre' Hy.
  - destruct pre' as [|q' pre']; simplify_eq/=; [done|].
    by apply Forall_cons in Hpre' as [? _].
  - destruct pre' as [|q' pre']; simpl in Heq.
    + injection Heq as -> _. done.
    + injection Heq as -> Heq. apply Forall_cons in Hpre' as [_ Hpre'].
      by destruct (IH pre' Heq Hpre' Hy) as [-> ->].
Qed.

(** ** Proofs: ordered dictionaries *)

Section dict_facts.
Context {V : Type}.
Implicit Types (d : dict V) (k : string) (v : V).

Lemma dict_get_set_eq k v d : dict_get k (dict_set k v d) = Some v.
Proof.
  induction d as [|[k' v'] d IH]; simpl.
  - by rewrite decide_True.
  - destruct (decide (k = k')) as [->|Hne]; simpl.
    + by rewrite decide_True.
    + by rewrite decide_False.
Qed.

Lemma dict_get_set_ne k k' v d :
  k ≠ k' → dict_get k' (dict_set k v d) = dict_get k' d.
Proof.
  intros Hne. induction d as [|[k0 v0] d IH]; simpl.
  - by rewrite decide_False.
  - destruct (decide (k = k0)) as [->|Hne0]; simpl.
    + by rewrite !decide_False.
    + destruct (decide (k' = k0)); [done | apply IH].
Qed.

Lemma dict_get_set k k' v d :
  dict_get k' (dict_set k v d)
  = if decide (k' = k) then Some v else dict_get k' d.
Proof.
  destruct (decide (k' = k)) as [->|Hne].
  - apply dict_get_set_eq.
  - by apply dict_get_set_ne.
Qed.

Lemma dict_get_Some_elem k v d : dict_get k d = Some v → (k, v) ∈ d.
Proof.
  induction d as [|[k' v'] d IH]; simpl; [done|].
  destruct (decide (k = k')) as [->|Hne].
  - intros [= ->]. left.
  - intros H. right. by apply IH.
Qed.

Lemma dict_get_is_Some k d : is_Some (dict_get k d) ↔ k ∈ dict_keys d.
Proof.
  unfold dict_keys. induction d as [|[k' v'] d IH]; simpl.
  - split; [by intros [? ?] | by intros ?%elem_of_nil].
  - rewrite elem_of_cons. destruct (decide (k = k')) as [->|Hne].
    + split; [by left | eauto].
    + rewrite IH. split; [by right | by intros [?|?]].
Qed.

Lemma dict_get_None k d : dict_get k d = None ↔ k ∉ dict_keys d.
Proof. rewrite <- dict_get_is_Some, eq_None_not_Some. done. Qed.

Lemma dict_mem_true k d : dict_mem k d = true ↔ k ∈ dict_keys d.
Proof.
  rewrite <- dict_get_is_Some. unfold dict_mem.
  destruct (dict_get k d); split; (done || by intros [? ?] || eauto).
Qed.

Lemma dict_mem_false k d : dict_mem k d = false ↔ dict_get k d = None.
Proof. unfold dict_mem. by destruct (dict_get k d). Qed.

Lemma dict_keys_set_Some k v d :
  is_Some (dict_get k d) → dict_keys (dict_set k v d) = dict_keys d.
Proof.
  unfold dict_keys. induction d as [|[k' v'] d IH]; simpl.
  - by intros [? ?].
  - destruct (decide (k = k')) as [->|Hne]; simpl; [done|].
    intros H. f_equal. by apply IH.
Qed.

Lemma dict_keys_set_None k v d :
  dict_get k d = None → dict_keys (dict_set k v d) = dict_keys d ++ [k].
Proof.
  unfold dict_keys. induction d as [|[k' v'] d IH]; simpl; [done|].
  destruct (decide (k = k')) as [->|Hne]; simpl; [done|].
  intros H. f_equal. by apply IH.
Qed.

Lemma dict_set_NoDup k v d :
  NoDup (dict_keys d) → NoDup (dict_keys (dict_set k v d)).
Proof.
  intros Hd. destruct (dict_get k d) eqn:E.
  - by rewrite dict_keys_set_Some.
  - rewrite dict_keys_set_None by done.
    apply NoDup_app. split_and!; [done | | apply NoDup_singleton].
    intros x Hx ->%list_elem_of_singleton.
    by apply dict_get_None in E.
Qed.

Lemma dict_get_elem_NoDup k v d :
  NoDup (dict_keys d) → (k, v) ∈ d → dict_get k d = Some v.
Proof.
  unfold dict_keys. induction d as [|[k' v'] d IH]; simpl.
  - by intros _ ?%elem_of_nil.
  - intros [Hk' Hd]%NoDup_cons [[= -> ->] | Hin]%elem_of_cons.
    + by rewrite decide_True.
    + rewrite decide_False; [by apply IH|].
      intros ->. apply Hk'. apply list_elem_of_fmap. by exists (k', v).
Qed.

(** The linear search of the second loop and the [in] of the first agree. *)
Lemma linear_search_dict_mem k d : linear_search k d = dict_mem k d.
Proof.
  unfold dict_mem. induction d as [|[k' v'] d IH]; simpl; [done|].
  destruct (decide (k' = k)) as [->|Hne].
  - by rewrite decide_True.
  - rewrite decide_False by done. apply IH.
Qed.

Lemma getitem_Return d k v : getitem d k = Return v ↔ dict_get k d = Some v.
Proof.
  unfold getitem. destruct (dict_get k d); split; (done || by intros [= ->]).
Qed.

End dict_facts.

Section dict_more.
Context {V : Type}.
Implicit Types (d : dict V) (k : string) (v : V).

Lemma dict_set_set k v1 v2 d : dict_set k v2 (dict_set k v1 d) = dict_set k v2 d.
Proof.
  induction d as [|[k' v'] d IH]; simpl.
  - by rewrite decide_True.
  - destruct (decide (k = k')) as [->|Hne]; simpl.
    + by rewrite decide_True.
    + rewrite decide_False by done. by rewrite IH.
Qed.

Lemma dict_set_id k v d : dict_get k d = Some v → dict_set k v d = d.
Proof.
  induction d as [|[k' v'] d IH]; simpl; [done|].
  destruct (decide (k = k')) as [->|Hne].
  - by intros [= ->].
  - intros H. by rewrite IH.
Qed.

Lemma dict_set_Forall (P : V → Prop) k v d :
  P v → Forall (λ kv, P kv.2) d → Forall (λ kv, P kv.2) (dict_set k v d).
Proof.
  intros Hv. induction 1 as [|[k' v'] d Hv' Hd IH]; simpl.
  - by repeat constructor.
  - destruct (decide (k = k')); constructor; done.
Qed.

Lemma dict_get_Forall (P : V → Prop) k v d :
  Forall (λ kv, P kv.2) d → dict_get k d = Some v → P v.
Proof.
  intros Hd Hk%dict_get_Some_elem.
  rewrite Forall_forall in Hd. apply (Hd _ Hk).
Qed.
Lemma dict_sum_set (f : V → nat) k v d :
  sum_list ((λ kv, f kv.2) <$> dict_set k v d)
  + from_option f 0 (dict_get k d)
  = sum_list ((λ kv, f kv.2) <$> d) + f v.
Proof.
  induction d as [|[k' v'] d IH]; simpl in *; [lia|].
  destruct (decide (k = k')) as [->|Hne]; simpl in *; unfold fmap in *; lia.
Qed.
End dict_more.

Lemma sum_length_concat {A} (ls : list (list A)) :
  sum_list (length <$> ls) = length (concat ls).
Proof.
  induction ls as [|l ls IH]; [done|].
  rewrite fmap_cons. simpl. by rewrite length_app, IH.
Qed.

Lemma concat_values_set (k : string) (v : list string) x (d : dict (list string)) :
  dict_get k d = Some v →
  concat (dict_set k (v ++ [x]) d).*2 ≡ₚ concat d.*2 ++ [x].
Proof.
  induction d as [|[k' v'] d IH]; simpl; [done|].
  destruct (decide (k = k')) as [->|Hne]; simpl.
  - intros [= ->]. rewrite <- !(assoc_L (++)).
    apply Permutation_app_head, Permutation_app_comm.
  - intros H. rewrite (IH H). by rewrite (assoc_L (++)).
Qed.

(** ** Proofs: the first loop of process_application_json *)

Lemma status_lookup (table : dict syscall_entry) symbol :
  (if dict_mem symbol table
   then entry ← getitem table symbol; mret (sys_status entry)
   else mret "ABSENT") = Return (status_of table symbol).
Proof.
  unfold dict_mem, getitem, status_of. by destruct (dict_get symbol table).
Qed.

Lemma place_symbol_step app_name symbol st buckets :
  dict_get app_name (apps st) = Some buckets →
  place_symbol app_name symbol st =
  match dict_get (status_of (syscalls st) symbol) buckets with
  | Some bucket =>
      Return {| apps := dict_set app_name
                          (dict_set (status_of (syscalls st) symbol)
                             (bucket ++ [symbol]) buckets) (apps st);
                syscalls := syscalls st;
                undefined_syscalls := undefined_syscalls st |}
  | None => Raise (KeyError (status_of (syscalls st) symbol))
  end.
Proof.
  intros Happ. unfold place_symbol. rewrite status_lookup. simpl.
  rewrite (proj2 (getitem_Return _ _ _) Happ). simpl.
  unfold getitem. by destruct (dict_get _ buckets).
Qed.

(** What the first loop does to the buckets of the application, for either
    outcome. *)
Lemma place_symbols_spec app_name symbols : ∀ st buckets,
  dict_get app_name (apps st) = Some buckets →
  match for_each (place_symbol app_name) symbols st with
  | Return st' =>
      syscalls st' = syscalls st ∧
      undefined_syscalls st' = undefined_syscalls st ∧
      Forall (λ s, status_of (syscalls st) s ∈ dict_keys buckets) symbols ∧
      ∃ buckets',
        apps st' = dict_set app_name buckets' (apps st) ∧
        dict_keys buckets' = dict_keys buckets ∧
        (∀ k, dict_get k buckets' =
              (λ bucket,
                 bucket ++ filter (λ s, status_of (syscalls st) s = k) symbols)
              <$> dict_get k buckets) ∧
        concat buckets'.*2 ≡ₚ concat buckets.*2 ++ symbols
  | Raise e =>
      ∃ s, s ∈ symbols ∧
           (status_of (syscalls st) s ∉ dict_keys buckets) ∧
           e = KeyError (status_of (syscalls st) s)
  end.
Proof.
  induction symbols as [|x symbols IH]; intros st buckets Happ; simpl.
  - split_and!; [done.. | constructor |].
    exists buckets. split_and!.
    + symmetry. by apply dict_set_id.
    + done.
    + intros k. destruct (dict_get k buckets); simpl; [|done].
      by rewrite filter_nil, app_nil_r.
    + by rewrite app_nil_r.
  - rewrite (place_symbol_step _ _ _ _ Happ).
    destruct (dict_get (status_of (syscalls st) x) buckets) as [bucket|] eqn:Ex;
      simpl.
    + set (buckets1 := dict_set (status_of (syscalls st) x) (bucket ++ [x]) buckets).
      set (st1 := {| apps := dict_set app_name buckets1 (apps st);
                     syscalls := syscalls st;
                     undefined_syscalls := undefined_syscalls st |}).
      assert (Hkeys1 : dict_keys buckets1 = dict_keys buckets).
      { apply dict_keys_set_Some. by rewrite Ex. }
      specialize (IH st1 buckets1 (dict_get_set_eq _ _ _)).
      destruct (for_each (place_symbol app_name) symbols st1) as [st'|e]; simpl in *.
      * destruct IH as (Hsys & Hund & Hall & buckets' & Happs & Hkeys & Hget & Hperm).
        split_and!; [done | done | |].
        { constructor; [apply dict_get_is_Some; by rewrite Ex|].
          by rewrite Hkeys1 in Hall. }
        exists buckets'. split_and!.
        -- by rewrite Happs, dict_set_set.
        -- by rewrite Hkeys.
        -- intros k. rewrite Hget. unfold buckets1. rewrite dict_get_set.
           rewrite filter_cons. destruct (decide (k = status_of (syscalls st) x)) as [->|Hne].
           ++ rewrite Ex. simpl. rewrite decide_True by done.
              by rewrite <- (assoc_L (++)).
           ++ rewrite decide_False by done. done.
        -- rewrite Hperm. unfold buckets1. rewrite concat_values_set by done.
           by rewrite <- (assoc_L (++)).
      * destruct IH as (s & Hs & Hbad & ->).
        exists s. rewrite Hkeys1 in Hbad. split_and!; [by right | done..].
    + exists x. split_and!; [left | by apply dict_get_None | done].
Qed.

(** ** Proofs: the second loop of process_application_json *)

Lemma record_symbol_step app_name symbol st :
  record_symbol app_name symbol st =
  Return
    (match dict_get symbol (syscalls st) with
     | Some entry =>
         {| apps := apps st;
            syscalls := dict_set symbol (bump_sys app_name entry) (syscalls st);
            undefined_syscalls := undefined_syscalls st |}
     | None =>
         {| apps := apps st;
            syscalls := syscalls st;
            undefined_syscalls :=
              dict_set symbol
                (bump_und app_name symbol
                   (dict_get symbol (undefined_syscalls st)))
                (undefined_syscalls st) |}
     end).
Proof.
  unfold record_symbol. rewrite linear_search_dict_mem.
  unfold dict_mem at 1, getitem at 1.
  destruct (dict_get symbol (syscalls st)) as [entry|]; simpl; [done|].
  unfold dict_mem, getitem.
  destruct (dict_get symbol (undefined_syscalls st)) as [old|] eqn:Eold; simpl.
  - by rewrite Eold.
  - rewrite dict_get_set_eq. simpl. by rewrite dict_set_set.
Qed.

Lemma bool_decide_elem_of_cons_ne (s x : string) symbols :
  s ≠ x → bool_decide (s ∈ x :: symbols) = bool_decide (s ∈ symbols).
Proof.
  intros Hne. apply bool_decide_ext. rewrite elem_of_cons.
  split; [by intros [?|?] | by right].
Qed.

(** The second loop never raises; it adds the application once to the
    entry of every symbol it visits. *)
Lemma record_symbols_spec app_name symbols : ∀ st,
  NoDup symbols →
  ∃ st',
    for_each (record_symbol app_name) symbols st = Return st' ∧
    apps st' = apps st ∧
    dict_keys (syscalls st') = dict_keys (syscalls st) ∧
    (∀ s, dict_get s (syscalls st') =
          if bool_decide (s ∈ symbols)
          then bump_sys app_name <$> dict_get s (syscalls st)
          else dict_get s (syscalls st)) ∧
    (∀ s, dict_get s (undefined_syscalls st') =
          if bool_decide (s ∈ symbols) && negb (dict_mem s (syscalls st))
          then Some (bump_und app_name s (dict_get s (undefined_syscalls st)))
          else dict_get s (undefined_syscalls st)) ∧
    (NoDup (dict_keys (undefined_syscalls st)) →
     NoDup (dict_keys (undefined_syscalls st'))).
Proof.
  induction symbols as [|x symbols IH]; intros st Hnd; simpl.
  - exists st. split_and!; done.
  - apply NoDup_cons in Hnd as [Hx Hnd].
    rewrite record_symbol_step. simpl.
    match goal with |- context [for_each _ _ ?s] => set (st1 := s) end.
    destruct (IH st1 Hnd) as (st' & Hrun & Happs & Hkeys & Hsys & Hund & Hnodup).
    exists st'. split; [done|].
    assert (Hmem : ∀ s, dict_mem s (syscalls st1) = dict_mem s (syscalls st)).
    { intros s. unfold dict_mem, st1.
      destruct (dict_get x (syscalls st)) as [entry|] eqn:Ex; simpl; [|done].
      rewrite dict_get_set. case_decide as Hs; [subst s; by rewrite Ex | done]. }
    split_and!.
    + rewrite Happs. unfold st1. by destruct (dict_get x (syscalls st)).
    + rewrite Hkeys. unfold st1.
      destruct (dict_get x (syscalls st)) eqn:Ex; simpl; [|done].
      apply dict_keys_set_Some. by rewrite Ex.
    + intros s. rewrite Hsys. unfold st1.
      destruct (decide (s = x)) as [->|Hne].
      * rewrite bool_decide_eq_false_2 by done.
        rewrite bool_decide_eq_true_2 by left.
        destruct (dict_get x (syscalls st)) as [entry|] eqn:Ex; simpl.
        -- by rewrite dict_get_set_eq.
        -- by rewrite Ex.
      * rewrite bool_decide_elem_of_cons_ne by done.
        destruct (dict_get x (syscalls st)); cbn [syscalls]; [|done].
        by rewrite !dict_get_set_ne.
    + intros s. rewrite Hund, Hmem. unfold st1.
      destruct (decide (s = x)) as [->|Hne].
      * rewrite (bool_decide_eq_false_2 (x ∈ symbols)) by done.
        rewrite bool_decide_eq_true_2 by left. simpl.
        unfold dict_mem.
        destruct (dict_get x (syscalls st)) as [entry|] eqn:Ex; simpl; [done|].
        by rewrite dict_get_set_eq.
      * rewrite bool_decide_elem_of_cons_ne by done.
        destruct (dict_get x (syscalls st)); simpl; [done|].
        by rewrite !dict_get_set_ne.
    + intros Hnd0. apply Hnodup. unfold st1.
      destruct (dict_get x (syscalls st)); simpl; [done|].
      by apply dict_set_NoDup.
Qed.

(** ** Proofs: the symbol set of a document *)

Lemma add_symbols_spec local_set data :
  members (add_symbols local_set data)
  = members local_set ∪ list_to_set data.
Proof.
  unfold add_symbols. revert local_set.
  induction data as [|x data IH]; intros local_set; simpl.
  - by rewrite (right_id_L ∅ (∪)).
  - rewrite IH. simpl. by rewrite (assoc_L (∪)).
Qed.

(** Reading one section: nothing when the section is not there, the listed
    symbols when it is, [KeyError] when it has no [system_calls] member. *)
Lemma collect_section key (json_data : json) (local_set : pyset) :
  (if dict_mem key json_data then
     section ← getitem json_data key;
     data ← getitem section SYSCALLS_DATA;
     mret (add_symbols local_set data)
   else mret local_set)
  = match dict_get key json_data with
    | Some section =>
        match dict_get SYSCALLS_DATA section with
        | Some data => Return (add_symbols local_set data)
        | None => Raise (KeyError SYSCALLS_DATA)
        end
    | None => Return local_set
    end.
Proof.
  unfold dict_mem, getitem.
  destruct (dict_get key json_data) as [section|]; simpl; [|done].
  by destruct (dict_get SYSCALLS_DATA section).
Qed.

Lemma collect_symbols_Return json_data local_set :
  collect_symbols json_data = Return local_set →
  members local_set
  = list_to_set (section_symbols STATIC_DATA json_data
                 ++ section_symbols DYNAMIC_DATA json_data).
Proof.
  unfold collect_symbols, section_symbols. rewrite collect_section.
  destruct (dict_get STATIC_DATA json_data) as [s|];
    [destruct (dict_get SYSCALLS_DATA s); simpl; [|done]|];
    simpl; rewrite collect_section;
    (destruct (dict_get DYNAMIC_DATA json_data) as [d|];
     [destruct (dict_get SYSCALLS_DATA d); simpl; [|done]|]);
    intros [= <-]; rewrite ?add_symbols_spec; set_solver.
Qed.


Lemma symbols_of_Return json_data local_set :
  collect_symbols json_data = Return local_set →
  symbols_of json_data = members local_set.
Proof. unfold symbols_of. by intros ->. Qed.

Lemma add_apps_add_apps names1 names2 entry :
  add_apps names2 (add_apps names1 entry) = add_apps (names1 ++ names2) entry.
Proof. unfold add_apps. simpl. by rewrite (assoc_L (++)). Qed.

Lemma add_apps_nil entry : add_apps [] entry = entry.
Proof. destruct entry. unfold add_apps. simpl. by rewrite app_nil_r. Qed.

Lemma status_of_bucket_known table symbols :
  known_statuses table symbols ↔
  ∀ s, s ∈ symbols → status_of table s ∈ bucket_keys.
Proof.
  unfold known_statuses, status_of. split.
  - intros H s Hs. destruct (dict_get s table) as [entry|] eqn:E; [eauto|].
    unfold bucket_keys. set_solver.
  - intros H s entry Hs E. specialize (H s Hs). by rewrite E in H.
Qed.

(** ** Proofs: process_application_json *)

#[local] Arguments dict_get : simpl never.
#[local] Arguments dict_set : simpl never.

Section aggregation.
Variable set_iter : pyset → list string.
(** A loop over a set visits each of its members once, in some order. *)
Hypothesis set_iter_enum : ∀ X, set_iter X ≡ₚ elements (members X).

Lemma set_iter_elem X x : x ∈ set_iter X ↔ x ∈ members X.
Proof. by rewrite set_iter_enum, elem_of_elements. Qed.

Lemma set_iter_NoDup X : NoDup (set_iter X).
Proof. rewrite set_iter_enum. apply NoDup_elements. Qed.

(** The effect of processing one application, for either outcome. *)
Lemma process_spec app_name json_data st local_set :
  collect_symbols json_data = Return local_set →
  match process_application_json set_iter app_name json_data st with
  | Return st' =>
      known_statuses (syscalls st) (members local_set) ∧
      (∃ buckets,
         apps st' = dict_set app_name buckets (apps st) ∧
         dict_keys buckets = bucket_keys ∧
         (∀ k, dict_get k buckets =
               (λ _ : list string,
                  filter (λ s, status_of (syscalls st) s = k)
                    (set_iter local_set))
               <$> dict_get k empty_buckets) ∧
         concat buckets.*2 ≡ₚ elements (members local_set)) ∧
      dict_keys (syscalls st') = dict_keys (syscalls st) ∧
      (∀ s, dict_get s (syscalls st') =
            if bool_decide (s ∈ members local_set)
            then bump_sys app_name <$> dict_get s (syscalls st)
            else dict_get s (syscalls st)) ∧
      (∀ s, dict_get s (undefined_syscalls st') =
            if bool_decide (s ∈ members local_set) && negb (dict_mem s (syscalls st))
            then Some (bump_und app_name s
                         (dict_get s (undefined_syscalls st)))
            else dict_get s (undefined_syscalls st)) ∧
      (NoDup (dict_keys (undefined_syscalls st)) →
       NoDup (dict_keys (undefined_syscalls st')))
  | Raise e =>
      ∃ s entry,
        s ∈ members local_set ∧ dict_get s (syscalls st) = Some entry ∧
        (sys_status entry ∉ bucket_keys) ∧ e = KeyError (sys_status entry)
  end.
Proof.
  intros Hcollect. unfold process_application_json. rewrite Hcollect. simpl.
  match goal with
  | |- context [for_each (place_symbol _) _ ?s] => set (st0 := s)
  end.
  pose proof (place_symbols_spec app_name (set_iter local_set) st0
                empty_buckets (dict_get_set_eq _ _ _)) as Hplace.
  destruct (for_each (place_symbol app_name) (set_iter local_set) st0)
    as [st1|e]; simpl.
  - destruct Hplace as (Hsys & Hund & Hall & buckets & Happs & Hkeys & Hget & Hperm).
    destruct (record_symbols_spec app_name (set_iter local_set) st1
                (set_iter_NoDup _))
      as (st' & -> & Happs' & Hkeys' & Hsys' & Hund' & Hnodup).
    unfold st0 in *. cbn [apps syscalls undefined_syscalls] in *. split_and!.
    + apply status_of_bucket_known. intros s Hs%set_iter_elem.
      rewrite Forall_forall in Hall. apply (Hall s Hs).
    + exists buckets. split_and!.
      * by rewrite Happs', Happs, dict_set_set.
      * done.
      * intros k. rewrite Hget. destruct (dict_get k empty_buckets) eqn:E;
          simpl; [|done].
        f_equal.
        assert (l = []) as ->; [|done].
        apply dict_get_Some_elem in E. unfold empty_buckets in E.
        repeat (apply elem_of_cons in E as [[= _ ->]|E]; [done|]).
        by apply elem_of_nil in E.
      * by rewrite Hperm, set_iter_enum.
    + by rewrite Hkeys', Hsys.
    + intros s. rewrite Hsys', Hsys.
      by rewrite (bool_decide_ext _ _ (set_iter_elem local_set s)).
    + intros s. rewrite Hund', Hsys, Hund.
      by rewrite (bool_decide_ext _ _ (set_iter_elem local_set s)).
    + rewrite <- Hund. done.
  - destruct Hplace as (s & Hs%set_iter_elem & Hbad & ->).
    unfold st0 in *. cbn [apps syscalls undefined_syscalls] in *.
    unfold status_of in *.
    destruct (dict_get s (syscalls st)) as [entry|] eqn:E.
    + by exists s, entry.
    + exfalso. apply Hbad. unfold bucket_keys. set_solver.
Qed.

Lemma process_Return_collect app_name json_data st st' :
  process_application_json set_iter app_name json_data st = Return st' →
  ∃ local_set,
    collect_symbols json_data = Return local_set ∧
    symbols_of json_data = members local_set.
Proof.
  unfold process_application_json, symbols_of.
  destruct (collect_symbols json_data) as [local_set|]; [|done].
  by exists local_set.
Qed.

Lemma process_Raise_collect app_name json_data st e :
  collect_symbols json_data = Raise e →
  process_application_json set_iter app_name json_data st = Raise e.
Proof. unfold process_application_json. by intros ->. Qed.

(** C3: after an application is processed, its nine bucket lists hold
    between them every symbol of its symbol set exactly once, so their
    lengths add up to the size of that set, which is the union of the
    symbols of the static and the dynamic section. *)
Theorem bucket_lengths_sum app_name json_data st st' :
  process_application_json set_iter app_name json_data st = Return st' →
  ∃ buckets,
    dict_get app_name (apps st') = Some buckets ∧
    dict_keys buckets = bucket_keys ∧
    symbols_of json_data
    = list_to_set (section_symbols STATIC_DATA json_data
                   ++ section_symbols DYNAMIC_DATA json_data) ∧
    concat buckets.*2 ≡ₚ elements (symbols_of json_data) ∧
    sum_list (length <$> buckets.*2) = size (symbols_of json_data).
Proof.
  intros Hrun.
  destruct (process_Return_collect _ _ _ _ Hrun) as (local_set & Hcollect & ->).
  pose proof (process_spec app_name json_data st _ Hcollect) as Hspec.
  rewrite Hrun in Hspec.
  destruct Hspec as (_ & (buckets & Happs & Hkeys & _ & Hperm) & _).
  exists buckets. split_and!.
  - rewrite Happs. apply dict_get_set_eq.
  - done.
  - by apply collect_symbols_Return.
  - done.
  - rewrite sum_length_concat, Hperm. done.
Qed.

Lemma walk_loaded visited st :
  walk_application_json_folder set_iter visited st
  = for_each (λ p, process_application_json set_iter p.1 p.2)
      (loaded visited) st.
Proof.
  unfold walk_application_json_folder. revert st.
  induction visited as [|[[subdir file] json_data] visited IH]; intros st;
    [done|].
  simpl. destruct (endswith _ _); simpl.
  - destruct (process_application_json _ _ _ _); simpl; [apply IH | done].
  - apply IH.
Qed.

Lemma bump_as_add_apps (b : bool) app_name (o : option syscall_entry) :
  (if b then bump_sys app_name <$> o else o)
  = add_apps (if b then [app_name] else []) <$> o.
Proof.
  destruct b; [done|]. destruct o as [entry|]; simpl; [|done].
  by rewrite add_apps_nil.
Qed.

Lemma known_statuses_stable (table table' : dict syscall_entry) symbols f :
  (∀ s, dict_get s table' = add_apps (f s) <$> dict_get s table) →
  known_statuses table' symbols ↔ known_statuses table symbols.
Proof.
  intros Hget. unfold known_statuses. split; intros H s entry Hs E.
  - apply (H s (add_apps (f s) entry) Hs). by rewrite Hget, E.
  - rewrite Hget in E. destruct (dict_get s table) as [entry0|] eqn:E0;
      simplify_eq/=. by apply (H s entry0).
Qed.

Lemma undefined_keys_step app_name (local_set : gset string)
    (table : dict syscall_entry) (und und' : dict undefined_entry) :
  (∀ s, dict_get s und' =
        if bool_decide (s ∈ local_set) && negb (dict_mem s table)
        then Some (bump_und app_name s (dict_get s und))
        else dict_get s und) →
  ∀ s, s ∈ dict_keys und' ↔
       s ∈ dict_keys und ∨ s ∈ local_set ∧ s ∉ dict_keys table.
Proof.
  intros Hund s. rewrite <- !(dict_get_is_Some s und), <- (dict_get_is_Some s und').
  rewrite Hund, <- dict_mem_true.
  case_bool_decide as Es; destruct (dict_mem s table); simpl.
  - split; [by left | by intros [?|[_ ?]]].
  - split; [by right | by eauto].
  - split; [by left | by intros [?|[_ ?]]].
  - split; [by left | by intros [?|[? _]]].
Qed.

(** The effect of processing a sequence of applications. *)
Lemma run_spec progs : ∀ st,
  match for_each (λ p, process_application_json set_iter p.1 p.2) progs st
  with
  | Return st' =>
      Forall (clean (syscalls st)) progs ∧
      dict_keys (syscalls st') = dict_keys (syscalls st) ∧
      (∀ s, dict_get s (syscalls st') =
            add_apps (filter (λ p, s ∈ symbols_of p.2) progs).*1
            <$> dict_get s (syscalls st)) ∧
      (NoDup (dict_keys (apps st)) → NoDup (dict_keys (apps st'))) ∧
      (Forall (λ kv, dict_keys kv.2 = bucket_keys) (apps st) →
       Forall (λ kv, dict_keys kv.2 = bucket_keys) (apps st')) ∧
      (∀ s, s ∈ dict_keys (undefined_syscalls st') ↔
            s ∈ dict_keys (undefined_syscalls st) ∨
            (s ∉ dict_keys (syscalls st)) ∧
            ∃ p, p ∈ progs ∧ s ∈ symbols_of p.2)
  | Raise e =>
      ∃ pre p post,
        progs = pre ++ p :: post ∧
        Forall (clean (syscalls st)) pre ∧
        (collect_symbols p.2 = Raise e ∨
         ∃ s entry,
           succeeds (collect_symbols p.2) ∧
           s ∈ symbols_of p.2 ∧ dict_get s (syscalls st) = Some entry ∧
           (sys_status entry ∉ bucket_keys) ∧
           e = KeyError (sys_status entry))
  end.
Proof.
  induction progs as [|[app_name json_data] progs IH]; intros st.
  - simpl. split_and!; [constructor | done | | done | done |].
    + intros s. destruct (dict_get s (syscalls st)) as [entry|]; simpl; [|done].
      by rewrite add_apps_nil.
    + intros s. split; [by left|]. intros [?|[_ (p & Hp%elem_of_nil & _)]]; done.
  - cbn [for_each fst snd].
    destruct (collect_symbols json_data) as [local_set|e0] eqn:Hcollect.
    2:{ rewrite (process_Raise_collect _ _ _ _ Hcollect). simpl.
        exists [], (app_name, json_data), progs.
        split_and!; [done | constructor | by left]. }
    pose proof (process_spec app_name json_data st _ Hcollect) as Hspec.
    pose proof (symbols_of_Return _ _ Hcollect) as Hsym.
    destruct (process_application_json set_iter app_name json_data st)
      as [st1|e1]; simpl.
    2:{ destruct Hspec as (s & entry & Hs & E & Hbad & ->).
        exists [], (app_name, json_data), progs.
        split_and!; [done | constructor |]. right. exists s, entry.
        simpl. rewrite Hsym. split_and!; try done. by exists local_set. }
    destruct Hspec as (Hknown & (buckets & Happs & Hbk & _) & Hkeys & Hsys
                       & Hund & _).
    setoid_rewrite bump_as_add_apps in Hsys.
    assert (Hclean : ∀ p, clean (syscalls st1) p ↔ clean (syscalls st) p).
    { intros p. unfold clean. by rewrite (known_statuses_stable _ _ _ _ Hsys). }
    specialize (IH st1).
    destruct (for_each _ progs st1) as [st'|e].
    + destruct IH as (Hall & Hkeys' & Hsys' & Hnd & Hwf & Hund').
      split_and!.
      * constructor.
        -- split; [by exists local_set | simpl; by rewrite Hsym].
        -- eapply Forall_impl; [exact Hall|]. intros p. apply Hclean.
      * by rewrite Hkeys'.
      * intros s. rewrite Hsys', Hsys, <- option_fmap_compose.
        apply option_fmap_ext. intros entry. simpl.
        rewrite add_apps_add_apps. f_equal.
        rewrite filter_cons. simpl. rewrite Hsym.
        case_bool_decide; case_decide; done.
      * intros H. apply Hnd. rewrite Happs. by apply dict_set_NoDup.
      * intros H. apply Hwf. rewrite Happs.
        by apply (dict_set_Forall (λ b, dict_keys b = bucket_keys)).
      * intros s. rewrite Hund', Hkeys.
        rewrite (undefined_keys_step _ _ _ _ _ Hund).
        setoid_rewrite elem_of_cons. split.
        -- intros [[?|[? ?]]|[? (p & ? & ?)]]; [by left | right..].
           ++ split; [done|]. exists (app_name, json_data).
              split; [by left | simpl; by rewrite Hsym].
           ++ split; [done|]. exists p. split; [by right | done].
        -- intros [?|[? (p & [->|?] & Hp)]]; [by left; left | |].
           ++ left; right. simpl in Hp. by rewrite Hsym in Hp.
           ++ right. split; [done|]. by exists p.
    + destruct IH as (pre & p & post & -> & Hpre & Hfail).
      exists ((app_name, json_data) :: pre), p, post.
      split_and!; [done | |].
      * constructor.
        -- split; [by exists local_set | simpl; by rewrite Hsym].
        -- eapply Forall_impl; [exact Hpre|]. intros q. apply Hclean.
      * destruct Hfail as [?|(s & entry & ? & ? & E & ? & ->)]; [by left|].
        right. rewrite Hsys in E.
        destruct (dict_get s (syscalls st)) as [entry0|] eqn:E0;
          simplify_eq/=.
        by exists s, entry0.
Qed.
End aggregation.

(** ** Proofs: the spreadsheet *)

Section spreadsheet_facts.
Variable str_to_int : string → option Z.

Lemma parse_id_cases v :
  match parse_id str_to_int v with
  | Return id =>
      int str_to_int v = Return id ∨
      int str_to_int v = Raise ValueError ∧ id = (-1)%Z
  | Raise e => e = OverflowError ∧ is_infinite v = true
  end.
Proof.
  unfold parse_id. destruct v as [s|[m e|b|]|z]; simpl; auto.
  destruct (str_to_int s); auto.
Qed.

(** The loop over the data rows, for either outcome. *)
Lemma read_rows_spec rows : ∀ ids names stats,
  match for_each (read_row str_to_int) rows (ids, names, stats) with
  | Return (ids', names', stats') =>
      ∃ new_ids,
        ids' = ids ++ new_ids ∧
        names' = names ++ (row_name <$> rows) ∧
        stats' = stats ++ (normalize ∘ row_status <$> rows) ∧
        Forall2 (λ r id, parse_id str_to_int (row_rax r) = Return id)
          rows new_ids
  | Raise e =>
      ∃ r, r ∈ rows ∧ parse_id str_to_int (row_rax r) = Raise e
  end.
Proof.
  induction rows as [|r rows IH]; intros ids names stats; simpl.
  - exists []. by rewrite !app_nil_r.
  - destruct (parse_id str_to_int (row_rax r)) as [id|e] eqn:E; simpl.
    + specialize (IH (ids ++ [id]) (names ++ [row_name r])
                    (stats ++ [normalize (row_status r)])).
      destruct (for_each _ rows _) as [[[ids' names'] stats']|e].
      * destruct IH as (new_ids & -> & -> & -> & Hall).
        exists (id :: new_ids). rewrite <- !(assoc_L (++)).
        split_and!; [done.. | by constructor].
      * destruct IH as (r' & Hr' & Hfail). exists r'. split; [by right|done].
    + exists r. split; [left | done].
Qed.
End spreadsheet_facts.

(** ** Proofs: the status table built by main *)

Lemma list_item_Some {A} (xs : list A) i x :
  xs !! i = Some x → list_item xs i = Return x.
Proof. unfold list_item. by intros ->. Qed.

Lemma fill_rows_spec ids names stats n : ∀ i table,
  length names = length ids → length stats = length ids →
  i + n = length ids →
  Forall (λ kv, sys_apps kv.2 = []) table →
  ∃ table',
    for_each (λ i table,
                id ← list_item ids i;
                name ← list_item names i;
                status ← list_item stats i;
                mret (dict_set name
                        {| sys_id := id; sys_name := name;
                           sys_status := status; sys_apps := [] |} table))
      (seq i n) table = Return table' ∧
    Forall (λ kv, sys_apps kv.2 = []) table'.
Proof.
  induction n as [|n IH]; intros i table Hnames Hstats Hlen Hempty;
    cbn [seq for_each].
  - by exists table.
  - destruct (lookup_lt_is_Some_2 ids i ltac:(lia)) as [id Hid].
    destruct (lookup_lt_is_Some_2 names i ltac:(lia)) as [name Hname].
    destruct (lookup_lt_is_Some_2 stats i ltac:(lia)) as [status Hstatus].
    rewrite !(list_item_Some _ _ _ Hid), !(list_item_Some _ _ _ Hname),
      !(list_item_Some _ _ _ Hstatus).
    simpl. apply IH; [done | done | lia |].
    by apply (dict_set_Forall (λ e, sys_apps e = [])).
Qed.

(** ** Proofs: the reports *)

Lemma for_each_rows {V} (d : dict V) (f : string → V → string) keys : ∀ acc,
  (∀ k, k ∈ keys → is_Some (dict_get k d)) →
  for_each (λ s lines, entry ← getitem d s; mret (lines ++ [f s entry]))
    keys acc
  = Return (acc ++ omap (λ s, f s <$> dict_get s d) keys).
Proof.
  induction keys as [|k keys IH]; intros acc Hkeys; simpl.
  - by rewrite app_nil_r.
  - destruct (Hkeys k ltac:(left)) as [v Hv].
    rewrite (proj2 (getitem_Return _ _ _) Hv), Hv. simpl.
    rewrite IH by (intros; apply Hkeys; by right).
    by rewrite <- (assoc_L (++)).
Qed.

Lemma omap_rows_sub {V} (d entries : dict V) (f : string → V → string) :
  (∀ k v, (k, v) ∈ entries → dict_get k d = Some v) →
  omap (λ s, f s <$> dict_get s d) (dict_keys entries)
  = (λ kv, f kv.1 kv.2) <$> entries.
Proof.
  unfold dict_keys.
  induction entries as [|[k v] entries IH]; intros Hall; [done|].
  rewrite !fmap_cons. simpl. rewrite (Hall k v) by left. simpl.
  f_equal. apply IH. intros. apply Hall. by right.
Qed.

(** With distinct keys, the rows of a loop over a dictionary are the rows
    of its entries, in their order. *)
Lemma omap_rows {V} (d : dict V) (f : string → V → string) :
  NoDup (dict_keys d) →
  omap (λ s, f s <$> dict_get s d) (dict_keys d)
  = (λ kv, f kv.1 kv.2) <$> d.
Proof.
  intros Hnd. apply omap_rows_sub. intros k v. by apply dict_get_elem_NoDup.
Qed.

Lemma print_syscalls_spec st :
  print_syscalls st =
  Return (syscalls_header ::
          omap (λ s, (λ entry, csv [s; sys_status entry;
                                    str_nat (length (sys_apps entry))])
                     <$> dict_get s (syscalls st))
            (dict_keys (syscalls st))
          ++ omap (λ s, (λ entry, csv [s; "ABSENT";
                                       str_nat (length (und_apps entry))])
                        <$> dict_get s (undefined_syscalls st))
               (dict_keys (undefined_syscalls st))).
Proof.
  unfold print_syscalls.
  rewrite (for_each_rows (syscalls st)
             (λ s entry, csv [s; sys_status entry;
                              str_nat (length (sys_apps entry))]))
    by (intros; by apply dict_get_is_Some).
  simpl.
  rewrite (for_each_rows (undefined_syscalls st)
             (λ s entry, csv [s; "ABSENT"; str_nat (length (und_apps entry))]))
    by (intros; by apply dict_get_is_Some).
  done.
Qed.

Lemma buckets_shape (buckets : dict (list string)) :
  dict_keys buckets = bucket_keys →
  ∃ l1 l2 l3 l4 l5 l6 l7 l8 l9,
    buckets = [("OKAY", l1); ("ABSENT", l2); ("NOT_IMPL", l3);
               ("INCOMPLETE", l4); ("REG_MISS", l5); ("STUBBED", l6);
               ("BROKEN", l7); ("IN_PROGRESS", l8); ("PLANNED", l9)].
Proof.
  unfold dict_keys, bucket_keys. intros H.
  repeat (destruct buckets as [|[? ?] buckets]; [discriminate H|];
          rewrite fmap_cons in H; injection H as <- H).
  destruct buckets; [|discriminate H]. by eexists _, _, _, _, _, _, _, _, _.
Qed.

Lemma print_app_line a st buckets :
  dict_get a (apps st) = Some buckets →
  dict_keys buckets = bucket_keys →
  print_app a st = Return (app_line a buckets).
Proof.
  intros Ha (l1 & l2 & l3 & l4 & l5 & l6 & l7 & l8 & l9 & ->)%buckets_shape.
  unfold print_app. rewrite (proj2 (getitem_Return _ _ _) Ha).
  transitivity
    (Return (csv [a;
                  str_nat (length l1 + length l3 + length l4 + length l5
                           + length l6 + length l9 + length l8 + length l7);
                  str_nat (length l1); str_nat (length l3);
                  str_nat (length l5); str_nat (length l4);
                  str_nat (length l6); str_nat (length l9);
                  str_nat (length l7); str_nat (length l8);
                  str_nat (length l2)])); [reflexivity|].
  unfold app_line. do 5 f_equal.
  change (length l1 + length l3 + length l4 + length l5 + length l6
          + length l9 + length l8 + length l7
          = length l1 + (length l3 + (length l4 + (length l5 + (length l6
            + (length l7 + (length l8 + (length l9 + 0)))))))).
  lia.
Qed.

Lemma print_apps_rows st (entries : dict (dict (list string))) : ∀ acc,
  (∀ a buckets, (a, buckets) ∈ entries →
                dict_get a (apps st) = Some buckets ∧
                dict_keys buckets = bucket_keys) →
  for_each (λ a lines, line ← print_app a st; mret (lines ++ [line]))
    (dict_keys entries) acc
  = Return (acc ++ ((λ kv, app_line kv.1 kv.2) <$> entries)).
Proof.
  induction entries as [|[a buckets] entries IH]; intros acc Hall; simpl.
  - by rewrite app_nil_r.
  - destruct (Hall a buckets ltac:(left)) as [Ha Hkeys].
    rewrite (print_app_line _ _ _ Ha Hkeys). simpl.
    unfold dict_keys in IH. rewrite IH by (intros; apply Hall; by right).
    by rewrite <- (assoc_L (++)).
Qed.

Lemma print_apps_spec st :
  NoDup (dict_keys (apps st)) →
  Forall (λ kv, dict_keys kv.2 = bucket_keys) (apps st) →
  print_apps st
  = Return (apps_header :: ((λ kv, app_line kv.1 kv.2) <$> apps st)).
Proof.
  intros Hnd Hwf. unfold print_apps. rewrite print_apps_rows; [done|].
  intros a buckets Hin. split; [by apply dict_get_elem_NoDup|].
  rewrite Forall_forall in Hwf. apply (Hwf _ Hin).
Qed.

(** ** The identifier column *)

Section identifier_column.
Variable str_to_int : string → option Z.

(** C9, amended: a data row whose first cell is not an infinite float
    always yields an identifier and the sheet is read without an
    exception: the integer [int] converts the cell to, and -1 when [int]
    raises [ValueError]. *)
Theorem id_column_parsed worksheet :
  Forall (λ r, is_infinite (row_rax r) = false) (drop 1 worksheet) →
  ∃ ids names stats,
    process_syscall_spreadsheet str_to_int worksheet
    = Return (ids, names, stats) ∧
    Forall2 (λ r id,
               int str_to_int (row_rax r) = Return id ∨
               int str_to_int (row_rax r) = Raise ValueError ∧ id = (-1)%Z)
      (drop 1 worksheet) ids.
Proof.
  intros Hfinite. unfold process_syscall_spreadsheet.
  pose proof (read_rows_spec str_to_int (drop 1 worksheet) [] [] []) as Hspec.
  destruct (for_each _ _ _) as [[[ids names] stats]|e].
  - destruct Hspec as (new_ids & -> & _ & _ & Hall).
    exists new_ids, names, stats. split; [done|].
    eapply Forall2_impl; [exact Hall|]. intros r id Hid.
    pose proof (parse_id_cases str_to_int (row_rax r)) as Hcases.
    by rewrite Hid in Hcases.
  - destruct Hspec as (r & Hr & Hfail). exfalso.
    pose proof (parse_id_cases str_to_int (row_rax r)) as Hcases.
    rewrite Hfail in Hcases. destruct Hcases as [_ Hinf].
    rewrite Forall_forall in Hfinite. specialize (Hfinite r Hr). congruence.
Qed.
End identifier_column.

Lemma id_column_parsed_witness :
  Forall (λ r, is_infinite (row_rax r) = false) (drop 1 sample_sheet) ∧
  ∃ ids names stats,
    process_syscall_spreadsheet decimal_int sample_sheet
    = Return (ids, names, stats) ∧
    Forall2 (λ r id,
               int decimal_int (row_rax r) = Return id ∨
               int decimal_int (row_rax r) = Raise ValueError ∧ id = (-1)%Z)
      (drop 1 sample_sheet) ids.
Proof.
  split.
  - repeat constructor.
  - apply (id_column_parsed decimal_int sample_sheet). repeat constructor.
Defined.

(** C9 as stated fails: a first cell holding an infinite float makes [int]
    raise [OverflowError], which the handler for [ValueError] lets through,
    and no identifier is produced for the row. *)
Lemma id_column_overflow :
  process_syscall_spreadsheet decimal_int
    [ {| row_rax := Text "RAX"; row_name := "Name"; row_status := "Status" |};
      {| row_rax := Number (Infinity false); row_name := "fork";
         row_status := "" |} ]
  = Raise OverflowError.
Proof. reflexivity. Qed.

(** ** The whole run *)

Section whole_run.
Variable set_iter : pyset → list string.
Hypothesis set_iter_enum : ∀ X, set_iter X ≡ₚ elements (members X).
Variable str_to_int : string → option Z.

(** What [aggregate] has done when it returns. *)
Lemma aggregate_Return worksheet visited st :
  aggregate set_iter str_to_int worksheet visited = Return st →
  ∃ table,
    Forall (λ kv, sys_apps kv.2 = []) table ∧
    for_each (λ p, process_application_json set_iter p.1 p.2)
      (loaded visited)
      {| apps := []; syscalls := table; undefined_syscalls := [] |}
    = Return st.
Proof.
  unfold aggregate. intros Hrun.
  apply bind_Return in Hrun as ([[ids names] stats] & Hsheet & Hrun).
  apply bind_Return in Hrun as (table & Htable & Hrun).
  exists table. rewrite <- walk_loaded. split; [|done].
  unfold process_syscall_spreadsheet in Hsheet.
  pose proof (read_rows_spec str_to_int (drop 1 worksheet) [] [] []) as Hspec.
  rewrite Hsheet in Hspec. destruct Hspec as (new_ids & -> & -> & -> & Hall).
  apply Forall2_length in Hall. simpl in Htable.
  destruct (fill_rows_spec new_ids (row_name <$> drop 1 worksheet)
              (normalize ∘ row_status <$> drop 1 worksheet)
              (length new_ids) 0 [])
    as (table' & Htable' & Hempty).
  - by rewrite length_fmap.
  - by rewrite length_fmap.
  - done.
  - constructor.
  - rewrite Htable in Htable'. by injection Htable' as <-.
Qed.

(** C1, amended: for a run that completes, the app report is the header
    followed by one line per application, and the total column of a line
    is the sum of the eight bucket counts other than absent; the absent
    count has a column of its own and is not part of the total. *)
Theorem apps_report_total worksheet visited st :
  aggregate set_iter str_to_int worksheet visited = Return st →
  Forall (λ kv, dict_keys kv.2 = bucket_keys) (apps st) ∧
  print_apps st
  = Return (apps_header :: ((λ kv, app_line kv.1 kv.2) <$> apps st)) ∧
  main set_iter str_to_int true false worksheet visited
  = Return (apps_header :: ((λ kv, app_line kv.1 kv.2) <$> apps st)).
Proof.
  intros Hmain. assert (Hagg := Hmain). revert Hmain.
  intros (table & _ & Hrun)%aggregate_Return.
  pose proof (run_spec set_iter set_iter_enum (loaded visited)
                {| apps := []; syscalls := table;
                   undefined_syscalls := [] |}) as Hspec.
  rewrite Hrun in Hspec. destruct Hspec as (_ & _ & _ & Hnd & Hwf & _).
  simpl in Hnd, Hwf.
  assert (Forall (λ kv, dict_keys kv.2 = bucket_keys) (apps st))
    by (apply Hwf; constructor).
  assert (Hprint : print_apps st
                   = Return (apps_header
                             :: ((λ kv, app_line kv.1 kv.2) <$> apps st))).
  { apply print_apps_spec; [|done]. apply Hnd. constructor. }
  split_and!; [done.. |].
  unfold main. rewrite Hagg. simpl. rewrite Hprint. simpl.
  by rewrite app_nil_r.
Qed.

(** C4: when every application has been processed, the application list
    of a status table entry names the loaded applications whose symbol
    set contains the system call, in load order, so its length is their
    number. *)
Theorem apps_list_in_load_order worksheet visited st name entry :
  aggregate set_iter str_to_int worksheet visited = Return st →
  dict_get name (syscalls st) = Some entry →
  sys_apps entry
  = (filter (λ p, name ∈ symbols_of p.2) (loaded visited)).*1 ∧
  length (sys_apps entry)
  = length (filter (λ p, name ∈ symbols_of p.2) (loaded visited)).
Proof.
  intros (table & Hempty & Hrun)%aggregate_Return Hentry.
  pose proof (run_spec set_iter set_iter_enum (loaded visited)
                {| apps := []; syscalls := table;
                   undefined_syscalls := [] |}) as Hspec.
  rewrite Hrun in Hspec. destruct Hspec as (_ & _ & Hsys & _).
  rewrite Hsys in Hentry. simpl in Hentry.
  destruct (dict_get name table) as [entry0|] eqn:E0; simplify_eq/=.
  rewrite (dict_get_Forall (λ e, sys_apps e = []) _ _ _ Hempty E0).
  split; [done|]. simpl. by rewrite length_fmap.
Qed.

(** C8: when the walk loads no application, every status table entry has
    an empty application list, there is no undefined system call, and the
    app report is its header alone. *)
Theorem no_application_loaded worksheet visited sheet :
  process_syscall_spreadsheet str_to_int worksheet = Return sheet →
  loaded visited = [] →
  (∃ st,
     aggregate set_iter str_to_int worksheet visited = Return st ∧
     Forall (λ kv, sys_apps kv.2 = []) (syscalls st) ∧
     undefined_syscalls st = [] ∧
     print_apps st = Return [apps_header]) ∧
  main set_iter str_to_int true false worksheet visited
  = Return [apps_header].
Proof.
  intros Hsheet Hnone.
  destruct sheet as [[ids names] stats].
  pose proof (read_rows_spec str_to_int (drop 1 worksheet) [] [] []) as Hspec.
  unfold process_syscall_spreadsheet in Hsheet. rewrite Hsheet in Hspec.
  fold (process_syscall_spreadsheet str_to_int worksheet) in Hsheet. destruct Hspec as (new_ids & -> & -> & -> & Hall).
  apply Forall2_length in Hall.
  destruct (fill_rows_spec new_ids (row_name <$> drop 1 worksheet)
              (normalize ∘ row_status <$> drop 1 worksheet)
              (length new_ids) 0 [])
    as (table & Htable & Hempty);
    [by rewrite length_fmap | by rewrite length_fmap | done | constructor |].
  assert (Hrun : aggregate set_iter str_to_int worksheet visited
                 = Return {| apps := []; syscalls := table;
                             undefined_syscalls := [] |}).
  { unfold aggregate. rewrite Hsheet. simpl. rewrite Htable. simpl.
    by rewrite (walk_loaded set_iter), Hnone. }
  split.
  - eexists. split; [exact Hrun|]. by split_and!.
  - unfold main. by rewrite Hrun.
Qed.
End whole_run.

(** ** One application *)

Section one_application.
Variable set_iter : pyset → list string.
Hypothesis set_iter_enum : ∀ X, set_iter X ≡ₚ elements (members X).

Lemma process_outcome app_name json_data st st' :
  process_application_json set_iter app_name json_data st = Return st' →
  ∃ local_set,
    collect_symbols json_data = Return local_set ∧
    known_statuses (syscalls st) (symbols_of json_data) ∧
    (∃ buckets,
       apps st' = dict_set app_name buckets (apps st) ∧
       dict_keys buckets = bucket_keys ∧
       (∀ k, dict_get k buckets =
             (λ _ : list string,
                filter (λ s, status_of (syscalls st) s = k)
                  (set_iter local_set))
             <$> dict_get k empty_buckets)) ∧
    (∀ s, dict_get s (syscalls st') =
          if bool_decide (s ∈ symbols_of json_data)
          then bump_sys app_name <$> dict_get s (syscalls st)
          else dict_get s (syscalls st)) ∧
    (∀ s, dict_get s (undefined_syscalls st') =
          if bool_decide (s ∈ symbols_of json_data)
             && negb (dict_mem s (syscalls st))
          then Some (bump_und app_name s (dict_get s (undefined_syscalls st)))
          else dict_get s (undefined_syscalls st)).
Proof.
  intros Hrun.
  destruct (process_Return_collect _ _ _ _ _ Hrun)
    as (local_set & Hcollect & Hsym).
  pose proof (process_spec set_iter set_iter_enum app_name json_data st _
                Hcollect) as Hspec.
  rewrite Hrun in Hspec.
  destruct Hspec as (Hknown & (buckets & Happs & Hkeys & Hget & _) & _
                     & Hsys & Hund & _).
  exists local_set. rewrite Hsym. split_and!; [done.. | | done | done].
  by exists buckets.
Qed.

(** C7: a symbol of the application that the status table does not have
    is put in the ABSENT bucket of the application; the undefined system
    calls get an entry for it, made at its first reference, with the
    application appended to its list; and the syscall report has the line
    of the symbol with status ABSENT and the length of that list. *)
Theorem absent_symbol_recorded app_name json_data st st' symbol :
  process_application_json set_iter app_name json_data st = Return st' →
  symbol ∈ symbols_of json_data →
  dict_get symbol (syscalls st) = None →
  (∃ buckets bucket,
     dict_get app_name (apps st') = Some buckets ∧
     dict_get "ABSENT" buckets = Some bucket ∧ symbol ∈ bucket) ∧
  ∃ entry,
    dict_get symbol (undefined_syscalls st') = Some entry ∧
    und_name entry
    = from_option und_name symbol (dict_get symbol (undefined_syscalls st)) ∧
    und_apps entry
    = from_option und_apps [] (dict_get symbol (undefined_syscalls st))
      ++ [app_name] ∧
    ∃ lines,
      print_syscalls st' = Return lines ∧
      csv [symbol; "ABSENT"; str_nat (length (und_apps entry))] ∈ lines.
Proof.
  intros Hrun Hsym Habsent.
  destruct (process_outcome _ _ _ _ Hrun)
    as (local_set & Hcollect & _ & (buckets & Happs & Hkeys & Hget) & _ & Hund).
  split.
  - exists buckets, (filter (λ s, status_of (syscalls st) s = "ABSENT")
                       (set_iter local_set)).
    split_and!.
    + rewrite Happs. apply dict_get_set_eq.
    + by rewrite Hget.
    + apply list_elem_of_filter. split.
      * unfold status_of. by rewrite Habsent.
      * apply (set_iter_elem set_iter set_iter_enum).
        by rewrite (symbols_of_Return _ _ Hcollect) in Hsym.
  - specialize (Hund symbol).
    rewrite bool_decide_eq_true_2 in Hund by done.
    rewrite (proj2 (dict_mem_false _ _) Habsent) in Hund. simpl in Hund.
    eexists. split; [exact Hund|]. split_and!.
    + by destruct (dict_get symbol (undefined_syscalls st)).
    + by destruct (dict_get symbol (undefined_syscalls st)).
    + eexists. split; [apply print_syscalls_spec|].
      right. apply elem_of_app. right. apply list_elem_of_omap.
      exists symbol. split.
      * apply dict_get_is_Some. by rewrite Hund.
      * by rewrite Hund.
Qed.

(** C10: for every symbol of a processed application exactly one of the
    two application lists grows by the name of the application: the list
    of the status table entry when the symbol is a key of the table, the
    list of the undefined entry otherwise. The linear search of the second
    loop and the membership test of the first agree, so afterwards the
    keys of the undefined system calls are the former ones and the
    symbols of the application that the table does not have. *)
Theorem apps_update_exclusive app_name json_data st st' :
  process_application_json set_iter app_name json_data st = Return st' →
  (∀ symbol,
     linear_search symbol (syscalls st) = dict_mem symbol (syscalls st)) ∧
  (∀ symbol, symbol ∈ symbols_of json_data →
     (symbol ∈ dict_keys (syscalls st) ∧
      (∃ entry entry',
         dict_get symbol (syscalls st) = Some entry ∧
         dict_get symbol (syscalls st') = Some entry' ∧
         sys_apps entry' = sys_apps entry ++ [app_name]) ∧
      dict_get symbol (undefined_syscalls st')
      = dict_get symbol (undefined_syscalls st))
     ∨
     ((symbol ∉ dict_keys (syscalls st)) ∧
      dict_get symbol (syscalls st') = None ∧
      ∃ entry',
        dict_get symbol (undefined_syscalls st') = Some entry' ∧
        und_apps entry'
        = from_option und_apps []
            (dict_get symbol (undefined_syscalls st)) ++ [app_name])) ∧
  (∀ symbol,
     symbol ∈ dict_keys (undefined_syscalls st') ↔
     symbol ∈ dict_keys (undefined_syscalls st) ∨
     symbol ∈ symbols_of json_data ∧ symbol ∉ dict_keys (syscalls st)).
Proof.
  intros Hrun.
  destruct (process_outcome _ _ _ _ Hrun) as (_ & _ & _ & _ & Hsys & Hund).
  split_and!.
  - intros symbol. apply linear_search_dict_mem.
  - intros symbol Hsym. specialize (Hsys symbol). specialize (Hund symbol).
    rewrite bool_decide_eq_true_2 in Hsys, Hund by done.
    destruct (dict_get symbol (syscalls st)) as [entry|] eqn:E.
    + left. split_and!.
      * apply dict_get_is_Some. by rewrite E.
      * by exists entry, (bump_sys app_name entry).
      * unfold dict_mem in Hund. by rewrite E in Hund.
    + right. split_and!.
      * by apply dict_get_None.
      * done.
      * unfold dict_mem in Hund. rewrite E in Hund. simpl in Hund.
        eexists. split; [exact Hund|].
        by destruct (dict_get symbol (undefined_syscalls st)).
  - by apply (undefined_keys_step app_name).
Qed.
End one_application.

(** ** Statuses that are not bucket keys *)

Section unknown_statuses.
Variable set_iter : pyset → list string.
Hypothesis set_iter_enum : ∀ X, set_iter X ≡ₚ elements (members X).

(** C5: with a document that has the members the code reads, processing
    an application returns exactly when every status the table gives one
    of its symbols is one of the nine bucket keys; when some status is
    not, processing raises [KeyError] with such a status; and a walk
    raises that error at the first application with such a symbol. *)
Theorem unknown_status_raises :
  (∀ app_name json_data st,
     succeeds (process_application_json set_iter app_name json_data st) ↔
     succeeds (collect_symbols json_data) ∧
     known_statuses (syscalls st) (symbols_of json_data)) ∧
  (∀ app_name json_data st local_set symbol entry,
     collect_symbols json_data = Return local_set →
     symbol ∈ members local_set →
     dict_get symbol (syscalls st) = Some entry →
     sys_status entry ∉ bucket_keys →
     ∃ symbol' entry',
       symbol' ∈ members local_set ∧
       dict_get symbol' (syscalls st) = Some entry' ∧
       (sys_status entry' ∉ bucket_keys) ∧
       process_application_json set_iter app_name json_data st
       = Raise (KeyError (sys_status entry'))) ∧
  (∀ visited st pre app_name json_data post symbol entry,
     loaded visited = pre ++ (app_name, json_data) :: post →
     Forall (clean (syscalls st)) pre →
     succeeds (collect_symbols json_data) →
     symbol ∈ symbols_of json_data →
     dict_get symbol (syscalls st) = Some entry →
     sys_status entry ∉ bucket_keys →
     ∃ symbol' entry',
       symbol' ∈ symbols_of json_data ∧
       dict_get symbol' (syscalls st) = Some entry' ∧
       (sys_status entry' ∉ bucket_keys) ∧
       walk_application_json_folder set_iter visited st
       = Raise (KeyError (sys_status entry'))).
Proof.
  split_and!.
  - intros app_name json_data st.
    destruct (collect_symbols json_data) as [local_set|e0] eqn:Hcollect.
    2:{ rewrite (process_Raise_collect _ _ _ _ _ Hcollect).
        split; [by intros [? ?] | by intros [[? ?] _]]. }
    pose proof (process_spec set_iter set_iter_enum app_name json_data st _
                  Hcollect) as Hspec.
    rewrite (symbols_of_Return _ _ Hcollect).
    destruct (process_application_json _ _ _ _) as [st'|e].
    + split; [intros _; split; [by exists local_set | apply Hspec]
             | by exists st'].
    + destruct Hspec as (s & entry & Hs & E & Hbad & _).
      split; [by intros [? ?]|]. intros [_ Hknown]. destruct Hbad.
      by apply (Hknown s entry).
  - intros app_name json_data st local_set symbol entry Hcollect Hsym E Hbad.
    pose proof (process_spec set_iter set_iter_enum app_name json_data st _
                  Hcollect) as Hspec.
    destruct (process_application_json _ _ _ _) as [st'|e].
    + destruct Hbad. destruct Hspec as [Hknown _].
      by apply (Hknown symbol entry).
    + destruct Hspec as (s & entry' & Hs & E' & Hbad' & ->).
      by exists s, entry'.
  - intros visited st pre app_name json_data post symbol entry
      Hloaded Hpre Hcollect Hsym E Hbad.
    rewrite (walk_loaded set_iter).
    pose proof (run_spec set_iter set_iter_enum (loaded visited) st) as Hspec.
    destruct (for_each _ (loaded visited) st) as [st'|e].
    + destruct Hspec as (Hall & _). rewrite Hloaded in Hall.
      apply Forall_app in Hall as [_ Hall].
      apply Forall_cons in Hall as [[_ Hknown] _].
      destruct Hbad. by apply (Hknown symbol entry).
    + destruct Hspec as (pre' & p & post' & Hsplit & Hpre' & Hfail).
      rewrite Hloaded in Hsplit.
      assert (Hp : ¬ clean (syscalls st) p).
      { intros [[ls Hls] Hknown].
        destruct Hfail as [Hraise|(s & e' & _ & Hs & E' & Hbad' & _)].
        - by rewrite Hls in Hraise.
        - destruct Hbad'. by apply (Hknown s e'). }
      assert (Hfirst : pre' = pre ∧ p = (app_name, json_data)).
      { apply (first_failure_unique (clean (syscalls st)) _ _ post _ _ post');
          try done.
        intros [_ Hknown]. destruct Hbad. by apply (Hknown symbol entry). }
      destruct Hfirst as [-> ->]. simpl in Hfail.
      destruct Hfail as [Hraise|(s & e' & _ & Hs & E' & Hbad' & ->)].
      * destruct Hcollect as [ls Hls]. by rewrite Hls in Hraise.
      * by exists s, e'.
Qed.
End unknown_statuses.

(** ** The statements on the sample inputs *)

(** [cleanb] decides [clean]. *)
Lemma cleanb_spec table p : cleanb table p = true → clean table p.
Proof.
  unfold cleanb, clean, symbols_of.
  destruct (collect_symbols p.2) as [local_set|e]; [|done].
  intros Hall. split; [by exists local_set|].
  apply status_of_bucket_known. intros s Hs%elem_of_elements.
  rewrite forallb_forall in Hall.
  apply list_elem_of_In, Hall in Hs. by apply bool_decide_eq_true in Hs.
Qed.

(** Closes a decidable goal on closed terms. *)
Ltac by_computation := apply (bool_decide_unpack _); vm_compute; exact I.

Lemma sample_iter_enum X : sample_iter X ≡ₚ elements (members X).
Proof. reflexivity. Qed.

Lemma bucket_lengths_sum_witness :
  ∃ st',
    process_application_json sample_iter "app2" sample_app2 sample_state
    = Return st' ∧
    ∃ buckets,
      dict_get "app2" (apps st') = Some buckets ∧
      dict_keys buckets = bucket_keys ∧
      symbols_of sample_app2
      = list_to_set (section_symbols STATIC_DATA sample_app2
                     ++ section_symbols DYNAMIC_DATA sample_app2) ∧
      concat buckets.*2 ≡ₚ elements (symbols_of sample_app2) ∧
      sum_list (length <$> buckets.*2) = size (symbols_of sample_app2).
Proof.
  eexists. split; [vm_compute; reflexivity|].
  apply (bucket_lengths_sum sample_iter sample_iter_enum "app2" sample_app2
           sample_state).
  vm_compute; reflexivity.
Defined.

Lemma apps_report_total_witness :
  ∃ st,
    aggregate sample_iter decimal_int sample_sheet sample_visited = Return st ∧
    Forall (λ kv, dict_keys kv.2 = bucket_keys) (apps st) ∧
    print_apps st
    = Return (apps_header :: ((λ kv, app_line kv.1 kv.2) <$> apps st)) ∧
    main sample_iter decimal_int true false sample_sheet sample_visited
    = Return (apps_header :: ((λ kv, app_line kv.1 kv.2) <$> apps st)).
Proof.
  eexists. split; [vm_compute; reflexivity|].
  apply (apps_report_total sample_iter sample_iter_enum decimal_int sample_sheet
           sample_visited).
  vm_compute; reflexivity.
Defined.

(** C1 as stated fails: "app1" uses "fork" (NOT_IMPL), "brk" (OKAY) and
    "xyz_unknown" (not in the table); its nine bucket counts add up to 3 and
    the total column of its line is 2. *)
Lemma apps_report_total_excludes_absent :
  main sample_iter decimal_int true false sample_sheet sample_visited
  = Return [apps_header;
            "app1,2,1,1,0,0,0,0,0,0,1";
            "app2,1,1,0,0,0,0,0,0,0,1"] ∧
  ∃ st buckets,
    aggregate sample_iter decimal_int sample_sheet sample_visited = Return st ∧
    dict_get "app1" (apps st) = Some buckets ∧
    buckets = [("OKAY", ["brk"]); ("ABSENT", ["xyz_unknown"]);
               ("NOT_IMPL", ["fork"]); ("INCOMPLETE", []); ("REG_MISS", []);
               ("STUBBED", []); ("BROKEN", []); ("IN_PROGRESS", []);
               ("PLANNED", [])] ∧
    sum_list (length <$> buckets.*2) = 3.
Proof.
  split; [vm_compute; reflexivity|].
  do 2 eexists. split_and!; vm_compute; reflexivity.
Qed.

Lemma apps_list_in_load_order_witness :
  ∃ st entry,
    aggregate sample_iter decimal_int sample_sheet sample_visited = Return st ∧
    dict_get "brk" (syscalls st) = Some entry ∧
    sys_apps entry
    = (filter (λ p, "brk" ∈ symbols_of p.2) (loaded sample_visited)).*1 ∧
    length (sys_apps entry)
    = length (filter (λ p, "brk" ∈ symbols_of p.2) (loaded sample_visited)).
Proof.
  do 2 eexists. split; [vm_compute; reflexivity|].
  split; [vm_compute; reflexivity|].
  eapply (apps_list_in_load_order sample_iter sample_iter_enum decimal_int
            sample_sheet sample_visited _ "brk");
    vm_compute; reflexivity.
Defined.

Lemma no_application_loaded_witness :
  ∃ sheet,
    process_syscall_spreadsheet decimal_int sample_sheet = Return sheet ∧
    loaded [("to_aggregate", "notes.txt", sample_app3)] = [] ∧
    (∃ st,
       aggregate sample_iter decimal_int sample_sheet
         [("to_aggregate", "notes.txt", sample_app3)] = Return st ∧
       Forall (λ kv, sys_apps kv.2 = []) (syscalls st) ∧
       undefined_syscalls st = [] ∧
       print_apps st = Return [apps_header]) ∧
    main sample_iter decimal_int true false sample_sheet
      [("to_aggregate", "notes.txt", sample_app3)]
    = Return [apps_header].
Proof.
  eexists. split; [vm_compute; reflexivity|]. split; [reflexivity|].
  eapply (no_application_loaded sample_iter decimal_int sample_sheet).
  - vm_compute; reflexivity.
  - reflexivity.
Defined.

Lemma absent_symbol_recorded_witness :
  ∃ st',
    process_application_json sample_iter "app1" sample_app1 sample_state
    = Return st' ∧
    "xyz_unknown" ∈ symbols_of sample_app1 ∧
    dict_get "xyz_unknown" (syscalls sample_state) = None ∧
    (∃ buckets bucket,
       dict_get "app1" (apps st') = Some buckets ∧
       dict_get "ABSENT" buckets = Some bucket ∧ "xyz_unknown" ∈ bucket) ∧
    ∃ entry,
      dict_get "xyz_unknown" (undefined_syscalls st') = Some entry ∧
      und_name entry
      = from_option und_name "xyz_unknown"
          (dict_get "xyz_unknown" (undefined_syscalls sample_state)) ∧
      und_apps entry
      = from_option und_apps []
          (dict_get "xyz_unknown" (undefined_syscalls sample_state))
        ++ ["app1"] ∧
      ∃ lines,
        print_syscalls st' = Return lines ∧
        csv ["xyz_unknown"; "ABSENT"; str_nat (length (und_apps entry))]
        ∈ lines.
Proof.
  eexists. split; [vm_compute; reflexivity|].
  split; [by_computation|]. split; [reflexivity|].
  apply (absent_symbol_recorded sample_iter sample_iter_enum "app1" sample_app1
           sample_state).
  - vm_compute; reflexivity.
  - by_computation.
  - reflexivity.
Defined.

Lemma apps_update_exclusive_witness :
  ∃ st',
    process_application_json sample_iter "app1" sample_app1 sample_state
    = Return st' ∧
    (∀ symbol,
       linear_search symbol (syscalls sample_state)
       = dict_mem symbol (syscalls sample_state)) ∧
    (∀ symbol, symbol ∈ symbols_of sample_app1 →
       (symbol ∈ dict_keys (syscalls sample_state) ∧
        (∃ entry entry',
           dict_get symbol (syscalls sample_state) = Some entry ∧
           dict_get symbol (syscalls st') = Some entry' ∧
           sys_apps entry' = sys_apps entry ++ ["app1"]) ∧
        dict_get symbol (undefined_syscalls st')
        = dict_get symbol (undefined_syscalls sample_state))
       ∨
       ((symbol ∉ dict_keys (syscalls sample_state)) ∧
        dict_get symbol (syscalls st') = None ∧
        ∃ entry',
          dict_get symbol (undefined_syscalls st') = Some entry' ∧
          und_apps entry'
          = from_option und_apps []
              (dict_get symbol (undefined_syscalls sample_state))
            ++ ["app1"])) ∧
    (∀ symbol,
       symbol ∈ dict_keys (undefined_syscalls st') ↔
       symbol ∈ dict_keys (undefined_syscalls sample_state) ∨
       symbol ∈ symbols_of sample_app1
       ∧ symbol ∉ dict_keys (syscalls sample_state)).
Proof.
  eexists. split; [vm_compute; reflexivity|].
  apply (apps_update_exclusive sample_iter sample_iter_enum "app1" sample_app1
           sample_state).
  vm_compute; reflexivity.
Defined.

Lemma unknown_status_raises_witness :
  ∃ symbol entry,
    symbol ∈ symbols_of sample_app3 ∧
    dict_get symbol (syscalls sample_state) = Some entry ∧
    (sys_status entry ∉ bucket_keys) ∧
    walk_application_json_folder sample_iter sample_visited_unknown sample_state
    = Raise (KeyError (sys_status entry)).
Proof.
  destruct (unknown_status_raises sample_iter sample_iter_enum) as (_ & _ & Hwalk).
  apply (Hwalk sample_visited_unknown sample_state
           [("app1", sample_app1); ("app2", sample_app2)]
           "app3" sample_app3 [] "vserver"
           {| sys_id := -1; sys_name := "vserver";
              sys_status := "will not be done"; sys_apps := [] |}).
  - reflexivity.
  - constructor; [apply cleanb_spec; vm_compute; reflexivity|].
    constructor; [apply cleanb_spec; vm_compute; reflexivity|].
    constructor.
  - eexists. vm_compute; reflexivity.
  - by_computation.
  - reflexivity.
  - by_computation.
Defined.

(** ** The scenarios of the specification *)

Example normalize_scenarios :
  normalize "" = "NOT_IMPL" ∧
  normalize "okay, fully supported" = "OKAY" ∧
  normalize "in progress, broken" = "IN_PROGRESS" ∧
  normalize "will not be done" = "will not be done".
Proof. by split_and!. Qed.

Example sheet_scenario :
  process_syscall_spreadsheet decimal_int sample_sheet
  = Return ([57; 12; -1]%Z, ["fork"; "brk"; "vserver"],
            ["NOT_IMPL"; "OKAY"; "will not be done"]).
Proof. reflexivity. Qed.

Example single_application_scenario :
  main sample_iter decimal_int true true sample_sheet
    [("to_aggregate", "app1.json",
      [("static_data", [("system_calls", ["fork"; "xyz_unknown"])])])]
  = Return [apps_header;
            "app1,1,0,1,0,0,0,0,0,0,1";
            syscalls_header;
            "fork,NOT_IMPL,1"; "brk,OKAY,0"; "vserver,will not be done,0";
            "xyz_unknown,ABSENT,1"].
Proof. vm_compute; reflexivity. Qed.

Example two_applications_scenario :
  main sample_iter decimal_int false true sample_sheet sample_visited
  = Return [syscalls_header;
            "fork,NOT_IMPL,1"; "brk,OKAY,2"; "vserver,will not be done,0";
            "xyz_unknown,ABSENT,2"].
Proof. vm_compute; reflexivity. Qed.

Example missing_member_scenario :
  process_application_json sample_iter "app"
    [("static_data", [("calls", ["fork"])])] sample_state
  = Raise (KeyError "system_calls").
Proof. reflexivity. Qed.

(** * More of the program *)

(** ** The spreadsheet loader *)

Section sheet_loader.
Variable str_to_int : string → option Z.

(** X1: the sheet read has one entry per data row in each of its three
    columns; the header row is skipped, the names are the cells as they are
    and the statuses are the normalised cells. *)
Theorem sheet_columns worksheet ids names stats :
  process_syscall_spreadsheet str_to_int worksheet
  = Return (ids, names, stats) →
  length ids = length worksheet - 1 ∧
  length names = length ids ∧
  length stats = length ids ∧
  names = row_name <$> drop 1 worksheet ∧
  stats = normalize ∘ row_status <$> drop 1 worksheet.
Proof.
  unfold process_syscall_spreadsheet. intros Hrun.
  pose proof (read_rows_spec str_to_int (drop 1 worksheet) [] [] []) as Hspec.
  rewrite Hrun in Hspec. destruct Hspec as (new_ids & -> & -> & -> & Hall).
  apply Forall2_length in Hall. simpl.
  rewrite !length_fmap, <- Hall, length_drop. done.
Qed.

End sheet_loader.

Lemma sheet_columns_witness :
  ∃ ids names stats,
    process_syscall_spreadsheet decimal_int sample_sheet
    = Return (ids, names, stats) ∧
    length ids = length sample_sheet - 1 ∧
    length names = length ids ∧
    length stats = length ids ∧
    names = row_name <$> drop 1 sample_sheet ∧
    stats = normalize ∘ row_status <$> drop 1 sample_sheet.
Proof.
  do 3 eexists. split; [vm_compute; reflexivity|].
  apply (sheet_columns decimal_int sample_sheet). vm_compute; reflexivity.
Defined.

(** ** The status table built by main *)

Lemma for_each_snoc {A S} (body : A → S → result S) xs x s :
  for_each body (xs ++ [x]) s = for_each body xs s ≫= body x.
Proof.
  revert s. induction xs as [|y xs IH]; intros s; simpl.
  - by destruct (body x s).
  - destruct (body y s); simpl; [apply IH | done].
Qed.

(** The table after the first [n] rows. *)
Lemma fill_prefix_spec (ids : list Z) (names stats : list string) (n : nat) :
  (n ≤ length ids)%nat →
  length names = length ids → length stats = length ids →
  ∃ table,
    for_each (λ i table,
                id ← list_item ids i;
                name ← list_item names i;
                status ← list_item stats i;
                mret (dict_set name
                        {| sys_id := id; sys_name := name;
                           sys_status := status; sys_apps := [] |} table))
      (seq 0 n) [] = Return table ∧
    NoDup (dict_keys table) ∧
    ∀ name entry,
      dict_get name table = Some entry ↔
      ∃ i, (i < n)%nat ∧ names !! i = Some name ∧
           (∀ j, (i < j)%nat → (j < n)%nat → names !! j ≠ Some name) ∧
           ids !! i = Some (sys_id entry) ∧
           stats !! i = Some (sys_status entry) ∧
           sys_name entry = name ∧ sys_apps entry = [].
Proof.
  intros Hn Hnames Hstats. induction n as [|n IH].
  - exists []. split_and!; [done | constructor |].
    intros name entry. split; [done | intros (i & ? & _); lia].
  - destruct IH as (table & Hrun & Hnd & Hget); [lia|].
    destruct (lookup_lt_is_Some_2 ids n ltac:(lia)) as [id Hid].
    destruct (lookup_lt_is_Some_2 names n ltac:(lia)) as [name0 Hname].
    destruct (lookup_lt_is_Some_2 stats n ltac:(lia)) as [status Hstatus].
    rewrite seq_S, for_each_snoc, Hrun. simpl.
    rewrite (list_item_Some _ _ _ Hid), (list_item_Some _ _ _ Hname),
      (list_item_Some _ _ _ Hstatus). simpl.
    eexists. split_and!; [done | by apply dict_set_NoDup |].
    intros name entry. rewrite dict_get_set.
    destruct (decide (name = name0)) as [->|Hne].
    + split.
      * intros [= <-]. exists n. split_and!; try done; [lia | intros; lia].
      * intros (i & Hi & Hi_name & Hlast & Hi_id & Hi_status & Hnm & Happs).
        destruct (decide (i = n)) as [->|Hin].
        -- destruct entry as [eid ename estatus eapps]. simpl in *.
           by simplify_eq.
        -- destruct (Hlast n); [lia | lia | done].
    + rewrite Hget. split.
      * intros (i & Hi & Hi_name & Hlast & Hi_id & Hi_status & Hnm & Happs).
        exists i. split_and!; [lia | done | | done..].
        intros j Hij Hj. destruct (decide (j = n)) as [->|?].
        -- rewrite Hname. congruence.
        -- apply Hlast; lia.
      * intros (i & Hi & Hi_name & Hlast & Hi_id & Hi_status & Hnm & Happs).
        destruct (decide (i = n)) as [->|Hin].
        { rewrite Hname in Hi_name. congruence. }
        exists i. split_and!; [lia | done | | done..].
        intros j Hij Hj. apply Hlast; lia.
Qed.

(** X3: from three columns of one length, main builds a table without
    raising; its keys are distinct, and a name that several rows carry gets
    the identifier and the status of the last of them. Every entry carries
    its key as its name and an empty application list. *)
Theorem table_last_row_wins (ids : list Z) (names stats : list string) :
  length names = length ids → length stats = length ids →
  ∃ table,
    fill_syscalls (ids, names, stats) = Return table ∧
    NoDup (dict_keys table) ∧
    ∀ name entry,
      dict_get name table = Some entry ↔
      ∃ i, names !! i = Some name ∧
           (∀ j, (i < j)%nat → names !! j ≠ Some name) ∧
           ids !! i = Some (sys_id entry) ∧
           stats !! i = Some (sys_status entry) ∧
           sys_name entry = name ∧ sys_apps entry = [].
Proof.
  intros Hnames Hstats.
  destruct (fill_prefix_spec ids names stats (length ids))
    as (table & Hrun & Hnd & Hget); [done..|].
  exists table. split_and!; [done | done |].
  intros name entry. rewrite Hget. split.
  - intros (i & Hi & Hi_name & Hlast & Hi_id & Hi_status & Hnm & Happs).
    exists i. split_and!; [done | | done..].
    intros j Hij. destruct (decide (j < length ids)%nat) as [Hj|Hj].
    + by apply Hlast.
    + rewrite lookup_ge_None_2; [done | lia].
  - intros (i & Hi_name & Hlast & Hi_id & Hi_status & Hnm & Happs).
    exists i. split_and!; [| done | | done..].
    + apply lookup_lt_Some in Hi_name. lia.
    + intros j Hij _. by apply Hlast.
Qed.

Lemma table_last_row_wins_witness :
  length ["fork"; "brk"; "fork"] = length [57; 12; 2]%Z ∧
  length ["NOT_IMPL"; "OKAY"; "BROKEN"] = length [57; 12; 2]%Z ∧
  ∃ table,
    fill_syscalls ([57; 12; 2]%Z, ["fork"; "brk"; "fork"],
                   ["NOT_IMPL"; "OKAY"; "BROKEN"]) = Return table ∧
    NoDup (dict_keys table) ∧
    ∀ name entry,
      dict_get name table = Some entry ↔
      ∃ i, ["fork"; "brk"; "fork"] !! i = Some name ∧
           (∀ j, (i < j)%nat → ["fork"; "brk"; "fork"] !! j ≠ Some name) ∧
           [57; 12; 2]%Z !! i = Some (sys_id entry) ∧
           ["NOT_IMPL"; "OKAY"; "BROKEN"] !! i = Some (sys_status entry) ∧
           sys_name entry = name ∧ sys_apps entry = [].
Proof.
  split; [reflexivity|]. split; [reflexivity|].
  apply (table_last_row_wins [57; 12; 2]%Z ["fork"; "brk"; "fork"]
           ["NOT_IMPL"; "OKAY"; "BROKEN"]); reflexivity.
Defined.

(** ** One application, further *)

Section one_application_more.
Variable set_iter : pyset → list string.
Hypothesis set_iter_enum : ∀ X, set_iter X ≡ₚ elements (members X).


(** X5: an application whose document lists no symbol is still recorded:
    it gets nine empty buckets, the two tables stay as they are, and its
    line of the app report is all zeros. *)
Theorem no_symbol_application app_name json_data st :
  succeeds (collect_symbols json_data) →
  symbols_of json_data = ∅ →
  process_application_json set_iter app_name json_data st
  = Return {| apps := dict_set app_name empty_buckets (apps st);
              syscalls := syscalls st;
              undefined_syscalls := undefined_syscalls st |} ∧
  print_app app_name
    {| apps := dict_set app_name empty_buckets (apps st);
       syscalls := syscalls st;
       undefined_syscalls := undefined_syscalls st |}
  = Return (csv [app_name; "0"; "0"; "0"; "0"; "0"; "0"; "0"; "0"; "0"; "0"]).
Proof.
  intros [local_set Hcollect] Hempty.
  rewrite (symbols_of_Return _ _ Hcollect) in Hempty.
  assert (set_iter local_set = []) as Hiter.
  { apply Permutation_nil_r. by rewrite set_iter_enum, Hempty, elements_empty. }
  split.
  - unfold process_application_json. rewrite Hcollect. simpl.
    by rewrite Hiter.
  - rewrite (print_app_line _ _ empty_buckets); [done | | done].
    apply dict_get_set_eq.
Qed.

Lemma process_buckets app_name json_data st st' :
  process_application_json set_iter app_name json_data st = Return st' →
  ∃ buckets,
    apps st' = dict_set app_name buckets (apps st) ∧
    buckets_of (syscalls st) (symbols_of json_data) buckets.
Proof.
  intros Hrun.
  destruct (process_Return_collect _ _ _ _ _ Hrun)
    as (local_set & Hcollect & Hsym).
  pose proof (process_spec set_iter set_iter_enum app_name json_data st _
                Hcollect) as Hspec.
  rewrite Hrun in Hspec.
  destruct Hspec as (_ & (buckets & Happs & Hkeys & Hget & _) & _).
  exists buckets. split; [done|].
  split; [done|]. intros key bucket Hbucket.
  rewrite Hget in Hbucket.
  destruct (dict_get key empty_buckets); simplify_eq/=.
  split.
  - apply NoDup_filter, set_iter_NoDup, set_iter_enum.
  - intros s. rewrite list_elem_of_filter, (set_iter_elem _ set_iter_enum),
      Hsym. naive_solver.
Qed.

(** X6: the buckets of a processed application split its symbols by
    status: a bucket holds exactly the symbols whose status, "ABSENT" for
    those the table does not have, is its key, each once. *)
Theorem buckets_partition_by_status app_name json_data st st' :
  process_application_json set_iter app_name json_data st = Return st' →
  ∃ buckets,
    dict_get app_name (apps st') = Some buckets ∧
    buckets_of (syscalls st) (symbols_of json_data) buckets.
Proof.
  intros (buckets & Happs & Hof)%process_buckets.
  exists buckets. split; [|done]. rewrite Happs. apply dict_get_set_eq.
Qed.

(** The status table entries a processed application leaves as they are,
    but for their application lists. *)
Lemma process_table app_name json_data st st' :
  process_application_json set_iter app_name json_data st = Return st' →
  dict_keys (syscalls st') = dict_keys (syscalls st) ∧
  (∀ s, dict_get s (syscalls st') =
        add_apps (if bool_decide (s ∈ symbols_of json_data)
                  then [app_name] else [])
        <$> dict_get s (syscalls st)) ∧
  (∀ s, dict_get s (undefined_syscalls st') =
        if bool_decide (s ∈ symbols_of json_data)
           && negb (dict_mem s (syscalls st))
        then Some (bump_und app_name s (dict_get s (undefined_syscalls st)))
        else dict_get s (undefined_syscalls st)) ∧
  (NoDup (dict_keys (undefined_syscalls st)) →
   NoDup (dict_keys (undefined_syscalls st'))).
Proof.
  intros Hrun.
  destruct (process_Return_collect _ _ _ _ _ Hrun)
    as (local_set & Hcollect & Hsym).
  pose proof (process_spec set_iter set_iter_enum app_name json_data st _
                Hcollect) as Hspec.
  rewrite Hrun in Hspec.
  destruct Hspec as (_ & _ & Hkeys & Hsys & Hund & Hnd).
  rewrite Hsym. split_and!; [done | | done | done].
  intros s. rewrite Hsys. apply bump_as_add_apps.
Qed.

Lemma status_of_add_apps (table table' : dict syscall_entry) f :
  (∀ s, dict_get s table' = add_apps (f s) <$> dict_get s table) →
  (∀ s, status_of table' s = status_of table s) ∧
  (∀ s, dict_mem s table' = dict_mem s table).
Proof.
  intros Hget. split; intros s; unfold status_of, dict_mem; rewrite Hget;
    by destruct (dict_get s table).
Qed.

Lemma buckets_of_stable (table table' : dict syscall_entry) symbols buckets :
  (∀ s, status_of table' s = status_of table s) →
  buckets_of table' symbols buckets ↔ buckets_of table symbols buckets.
Proof.
  intros Hstatus. unfold buckets_of.
  by setoid_rewrite Hstatus.
Qed.

End one_application_more.

Lemma no_symbol_application_witness :
  succeeds (collect_symbols [("version", [("system_calls", ["fork"])])]) ∧
  symbols_of [("version", [("system_calls", ["fork"])])] = ∅ ∧
  process_application_json sample_iter "idle"
    [("version", [("system_calls", ["fork"])])] sample_state
  = Return {| apps := dict_set "idle" empty_buckets (apps sample_state);
              syscalls := syscalls sample_state;
              undefined_syscalls := undefined_syscalls sample_state |} ∧
  print_app "idle"
    {| apps := dict_set "idle" empty_buckets (apps sample_state);
       syscalls := syscalls sample_state;
       undefined_syscalls := undefined_syscalls sample_state |}
  = Return (csv ["idle"; "0"; "0"; "0"; "0"; "0"; "0"; "0"; "0"; "0"; "0"]).
Proof.
  split; [by eexists|]. split; [reflexivity|].
  apply (no_symbol_application sample_iter sample_iter_enum "idle"
           [("version", [("system_calls", ["fork"])])] sample_state).
  - by eexists.
  - reflexivity.
Defined.

Lemma buckets_partition_by_status_witness :
  ∃ st',
    process_application_json sample_iter "app1" sample_app1 sample_state
    = Return st' ∧
    ∃ buckets,
      dict_get "app1" (apps st') = Some buckets ∧
      buckets_of (syscalls sample_state) (symbols_of sample_app1) buckets.
Proof.
  eexists. split; [vm_compute; reflexivity|].
  apply (buckets_partition_by_status sample_iter sample_iter_enum "app1"
           sample_app1 sample_state).
  vm_compute; reflexivity.
Defined.

(** ** The whole run, further *)

Section whole_run_more.
Variable set_iter : pyset → list string.
Hypothesis set_iter_enum : ∀ X, set_iter X ≡ₚ elements (members X).

Lemma run_cons (p : string * json) progs st st' :
  for_each (λ p, process_application_json set_iter p.1 p.2) (p :: progs) st
  = Return st' ↔
  ∃ st1,
    process_application_json set_iter p.1 p.2 st = Return st1 ∧
    for_each (λ p, process_application_json set_iter p.1 p.2) progs st1
    = Return st'.
Proof. simpl. apply bind_Return. Qed.

(** The undefined system calls after a sequence of applications. *)
Lemma run_undefined progs : ∀ st st',
  for_each (λ p, process_application_json set_iter p.1 p.2) progs st
  = Return st' →
  ∀ s, dict_get s (undefined_syscalls st') =
       if dict_mem s (syscalls st) then dict_get s (undefined_syscalls st)
       else
         match (filter (λ p, s ∈ symbols_of p.2) progs).*1 with
         | [] => dict_get s (undefined_syscalls st)
         | names =>
             Some {| und_name :=
                       from_option und_name s
                         (dict_get s (undefined_syscalls st));
                     und_apps :=
                       from_option und_apps []
                         (dict_get s (undefined_syscalls st)) ++ names |}
         end.
Proof.
  induction progs as [|[a d] progs IH]; intros st st'.
  - intros [= <-] s. by destruct (dict_mem s (syscalls st)).
  - intros (st1 & Hstep & Hrest)%run_cons s. simpl in Hstep.
    destruct (process_table set_iter set_iter_enum _ _ _ _ Hstep)
      as (_ & Hsys & Hund & _).
    destruct (status_of_add_apps _ _ _ Hsys) as [_ Hmem].
    rewrite (IH _ _ Hrest s), Hmem, Hund, filter_cons. cbn [snd].
    destruct (dict_mem s (syscalls st)) eqn:Em; cbn [negb].
    { by rewrite andb_false_r. }
    rewrite andb_true_r.
    destruct (decide (s ∈ symbols_of d)) as [Hs|Hs].
    + rewrite bool_decide_eq_true_2 by done. rewrite fmap_cons. cbn [fst].
      destruct ((filter _ progs).*1) as [|n names];
        destruct (dict_get s (undefined_syscalls st)) as [u|]; simpl;
        try done.
      by rewrite <- (assoc_L (++)).
    + by rewrite bool_decide_eq_false_2.
Qed.

(** The applications dictionary after a sequence of applications. *)
Lemma run_apps progs : ∀ st st',
  for_each (λ p, process_application_json set_iter p.1 p.2) progs st
  = Return st' →
  (∀ a, a ∈ dict_keys (apps st') ↔ a ∈ dict_keys (apps st) ∨ a ∈ progs.*1) ∧
  ∀ a,
    match last (filter (λ p, p.1 = a) progs) with
    | Some p =>
        ∃ buckets,
          dict_get a (apps st') = Some buckets ∧
          buckets_of (syscalls st) (symbols_of p.2) buckets
    | None => dict_get a (apps st') = dict_get a (apps st)
    end.
Proof.
  induction progs as [|[a0 d0] progs IH]; intros st st'.
  - intros [= <-]. split; [|done].
    intros a. split; [by left | by intros [?|?%elem_of_nil]].
  - intros (st1 & Hstep & Hrest)%run_cons. simpl in Hstep.
    destruct (process_buckets set_iter set_iter_enum _ _ _ _ Hstep)
      as (buckets0 & Happs & Hof).
    destruct (process_table set_iter set_iter_enum _ _ _ _ Hstep)
      as (_ & Hsys & _).
    destruct (status_of_add_apps _ _ _ Hsys) as [Hstatus _].
    destruct (IH _ _ Hrest) as [Hkeys Hlast]. split.
    + intros a. rewrite Hkeys, Happs, fmap_cons, elem_of_cons.
      rewrite <- !dict_get_is_Some, dict_get_set. simpl.
      case_decide as Ha; [subst a|]; split; try naive_solver.
    + intros a. specialize (Hlast a). rewrite filter_cons. simpl.
      case_decide as Ha; [subst a0; rewrite last_cons|];
        destruct (last (filter _ progs)) as [q|].
      * destruct Hlast as (buckets & Hget & Hq). exists buckets.
        split; [done|]. by apply (buckets_of_stable _ _ _ _ Hstatus).
      * exists buckets0. split; [|done].
        rewrite Hlast, Happs. apply dict_get_set_eq.
      * destruct Hlast as (buckets & Hget & Hq). exists buckets.
        split; [done|]. by apply (buckets_of_stable _ _ _ _ Hstatus).
      * rewrite Hlast, Happs. by apply dict_get_set_ne.
Qed.

(** X7: a walk that returns has left the status table as it was, key by
    key, but for the application lists, which have only grown at their
    end: no identifier, name or status is rewritten and no key is added
    or removed. *)
Theorem walk_keeps_table visited st st' :
  walk_application_json_folder set_iter visited st = Return st' →
  dict_keys (syscalls st') = dict_keys (syscalls st) ∧
  ∀ s,
    match dict_get s (syscalls st), dict_get s (syscalls st') with
    | Some entry, Some entry' =>
        sys_id entry' = sys_id entry ∧
        sys_name entry' = sys_name entry ∧
        sys_status entry' = sys_status entry ∧
        sys_apps entry `prefix_of` sys_apps entry'
    | None, None => True
    | _, _ => False
    end.
Proof.
  rewrite (walk_loaded set_iter). intros Hrun.
  pose proof (run_spec set_iter set_iter_enum (loaded visited) st) as Hspec.
  rewrite Hrun in Hspec. destruct Hspec as (_ & Hkeys & Hsys & _).
  split; [done|]. intros s. rewrite Hsys.
  destruct (dict_get s (syscalls st)) as [entry|]; simpl; [|done].
  split_and!; try done. by apply prefix_app_r.
Qed.

Variable str_to_int : string → option Z.

(** What [aggregate] has done when it returns, with the table it built. *)
Lemma aggregate_table worksheet visited st :
  aggregate set_iter str_to_int worksheet visited = Return st →
  ∃ table,
    NoDup (dict_keys table) ∧
    Forall (λ kv, sys_apps kv.2 = []) table ∧
    for_each (λ p, process_application_json set_iter p.1 p.2)
      (loaded visited)
      {| apps := []; syscalls := table; undefined_syscalls := [] |}
    = Return st.
Proof.
  intros Hagg. destruct (aggregate_Return _ _ _ _ _ Hagg)
    as (table & Hempty & Hrun).
  exists table. split; [|done].
  unfold aggregate in Hagg.
  apply bind_Return in Hagg as ([[ids names] stats] & Hsheet & Hagg).
  apply bind_Return in Hagg as (table' & Htable & Hwalk).
  rewrite (walk_loaded set_iter) in Hwalk.
  pose proof (run_spec set_iter set_iter_enum (loaded visited)
                {| apps := []; syscalls := table';
                   undefined_syscalls := [] |}) as Hspec'.
  pose proof (run_spec set_iter set_iter_enum (loaded visited)
                {| apps := []; syscalls := table;
                   undefined_syscalls := [] |}) as Hspec.
  rewrite Hwalk in Hspec'. rewrite Hrun in Hspec.
  destruct Hspec as (_ & Hkeys & _). destruct Hspec' as (_ & Hkeys' & _).
  simpl in Hkeys, Hkeys'. rewrite <- Hkeys, Hkeys'.
  unfold process_syscall_spreadsheet in Hsheet.
  pose proof (read_rows_spec str_to_int (drop 1 worksheet) [] [] []) as Hrows.
  rewrite Hsheet in Hrows. destruct Hrows as (new_ids & -> & -> & -> & Hall).
  apply Forall2_length in Hall. simpl in Htable.
  destruct (fill_prefix_spec new_ids (row_name <$> drop 1 worksheet)
              (normalize ∘ row_status <$> drop 1 worksheet) (length new_ids))
    as (table'' & Hfill & Hnd & _);
    [done | by rewrite length_fmap | by rewrite length_fmap |].
  rewrite Htable in Hfill. by injection Hfill as <-.
Qed.

(** X8: after a run, a symbol has an undefined entry exactly when the
    status table does not have it and some loaded application references
    it; the entry carries the symbol as its name and lists the referencing
    applications in load order. *)
Theorem undefined_apps_in_load_order worksheet visited st symbol :
  aggregate set_iter str_to_int worksheet visited = Return st →
  dict_get symbol (undefined_syscalls st)
  = if dict_mem symbol (syscalls st) then None
    else
      match (filter (λ p, symbol ∈ symbols_of p.2) (loaded visited)).*1 with
      | [] => None
      | names => Some {| und_name := symbol; und_apps := names |}
      end.
Proof.
  intros (table & _ & _ & Hrun)%aggregate_table.
  pose proof (run_spec set_iter set_iter_enum (loaded visited)
                {| apps := []; syscalls := table;
                   undefined_syscalls := [] |}) as Hspec.
  rewrite Hrun in Hspec. destruct Hspec as (_ & _ & Hsys & _).
  destruct (status_of_add_apps _ _ _ Hsys) as [_ Hmem].
  rewrite (run_undefined _ _ _ Hrun), Hmem. simpl.
  destruct (dict_mem symbol table); [done|].
  by destruct ((filter _ (loaded visited)).*1).
Qed.

(** X9: after a run, the applications dictionary has one entry per loaded
    application name; when several loaded files give the same name, the
    entry holds the buckets of the last of them. *)
Theorem apps_last_document_wins worksheet visited st :
  aggregate set_iter str_to_int worksheet visited = Return st →
  NoDup (dict_keys (apps st)) ∧
  (∀ a, a ∈ dict_keys (apps st) ↔ a ∈ (loaded visited).*1) ∧
  ∀ a,
    match last (filter (λ p, p.1 = a) (loaded visited)) with
    | Some p =>
        ∃ buckets,
          dict_get a (apps st) = Some buckets ∧
          buckets_of (syscalls st) (symbols_of p.2) buckets
    | None => dict_get a (apps st) = None
    end.
Proof.
  intros (table & _ & _ & Hrun)%aggregate_table.
  pose proof (run_spec set_iter set_iter_enum (loaded visited)
                {| apps := []; syscalls := table;
                   undefined_syscalls := [] |}) as Hspec.
  rewrite Hrun in Hspec. destruct Hspec as (_ & _ & Hsys & Hnd & _).
  destruct (status_of_add_apps _ _ _ Hsys) as [Hstatus _].
  destruct (run_apps _ _ _ Hrun) as [Hkeys Hlast]. simpl in *.
  split_and!.
  - apply Hnd. constructor.
  - intros a. rewrite Hkeys. split; [by intros [?%elem_of_nil|?] | by right].
  - intros a. specialize (Hlast a).
    destruct (last (filter _ (loaded visited))) as [p|]; [|done].
    destruct Hlast as (buckets & Hget & Hof). exists buckets.
    split; [done|]. by apply (buckets_of_stable _ _ _ _ Hstatus).
Qed.

Lemma record_symbol_refs app_name symbol st st' :
  record_symbol app_name symbol st = Return st' →
  refs_recorded st' = S (refs_recorded st).
Proof.
  rewrite record_symbol_step. intros [= <-]. unfold refs_recorded.
  destruct (dict_get symbol (syscalls st)) as [entry|] eqn:E; simpl.
  - pose proof (dict_sum_set (λ e, length (sys_apps e)) symbol
                  (bump_sys app_name entry) (syscalls st)) as Hsum.
    rewrite E in Hsum. simpl in Hsum. rewrite length_app in Hsum.
    simpl in Hsum. lia.
  - pose proof (dict_sum_set (λ e, length (und_apps e)) symbol
                  (bump_und app_name symbol
                     (dict_get symbol (undefined_syscalls st)))
                  (undefined_syscalls st)) as Hsum.
    destruct (dict_get symbol (undefined_syscalls st)) as [old|];
      simpl in *; rewrite ?length_app in Hsum; simpl in Hsum; lia.
Qed.

Lemma record_symbols_refs app_name symbols : ∀ st st',
  for_each (record_symbol app_name) symbols st = Return st' →
  refs_recorded st' = refs_recorded st + length symbols.
Proof.
  induction symbols as [|x symbols IH]; intros st st'; simpl.
  - intros [= <-]. lia.
  - intros (st1 & Hstep & Hrest)%bind_Return.
    rewrite (IH _ _ Hrest), (record_symbol_refs _ _ _ _ Hstep). lia.
Qed.

Lemma process_refs app_name json_data st st' :
  process_application_json set_iter app_name json_data st = Return st' →
  refs_recorded st' = refs_recorded st + size (symbols_of json_data).
Proof.
  intros Hrun.
  destruct (process_Return_collect _ _ _ _ _ Hrun)
    as (local_set & Hcollect & ->).
  unfold process_application_json in Hrun. rewrite Hcollect in Hrun.
  simpl in Hrun. apply bind_Return in Hrun as (st1 & Hplace & Hrecord).
  match type of Hplace with
  | for_each _ _ ?s = _ => set (st0 := s) in *
  end.
  pose proof (place_symbols_spec app_name (set_iter local_set) st0
                empty_buckets (dict_get_set_eq _ _ _)) as Hspec.
  rewrite Hplace in Hspec. destruct Hspec as (Hsys & Hund & _).
  rewrite (record_symbols_refs _ _ _ _ Hrecord).
  assert (refs_recorded st1 = refs_recorded st) as ->.
  { unfold refs_recorded. by rewrite Hsys, Hund. }
  f_equal. by rewrite set_iter_enum.
Qed.

Lemma run_refs progs : ∀ st st',
  for_each (λ p, process_application_json set_iter p.1 p.2) progs st
  = Return st' →
  refs_recorded st'
  = refs_recorded st + sum_list ((λ p, size (symbols_of p.2)) <$> progs).
Proof.
  induction progs as [|[a d] progs IH]; intros st st'.
  - intros [= <-]. simpl. lia.
  - intros (st1 & Hstep & Hrest)%run_cons. simpl in Hstep.
    rewrite (IH _ _ Hrest), (process_refs _ _ _ _ Hstep), fmap_cons.
    simpl. lia.
Qed.

(** X10: after a run, the application lists of the two tables together hold
    one reference for every pair of a loaded application and one of its
    distinct symbols: their lengths add up to the sum of the sizes of the
    symbol sets of the loaded applications. *)
Theorem references_conserved worksheet visited st :
  aggregate set_iter str_to_int worksheet visited = Return st →
  refs_recorded st
  = sum_list ((λ p, size (symbols_of p.2)) <$> loaded visited).
Proof.
  intros (table & _ & Hempty & Hrun)%aggregate_table.
  assert (Hstart : refs_recorded {| apps := []; syscalls := table;
                                     undefined_syscalls := [] |} = 0).
  { unfold refs_recorded. simpl. rewrite Nat.add_0_r. clear Hrun.
    induction Hempty as [|[k e] table He _ IH]; [done|].
    rewrite fmap_cons. simpl in *. by rewrite He, IH. }
  rewrite (run_refs _ _ _ Hrun), Hstart. done.
Qed.

Lemma run_returns progs st :
  Forall (clean (syscalls st)) progs →
  succeeds (for_each (λ p, process_application_json set_iter p.1 p.2)
              progs st).
Proof.
  intros Hclean.
  pose proof (run_spec set_iter set_iter_enum progs st) as Hspec.
  destruct (for_each _ progs st) as [st'|e]; [by exists st'|].
  destruct Hspec as (pre & p & post & -> & _ & Hfail).
  apply Forall_app in Hclean as [_ Hclean].
  apply Forall_cons in Hclean as [[[ls Hls] Hknown] _].
  destruct Hfail as [Hraise|(s & entry & _ & Hs & E & Hbad & _)].
  - by rewrite Hls in Hraise.
  - destruct Hbad. by apply (Hknown s entry).
Qed.

(** X11: the order in which the files are visited does not matter for the
    counts: a run over the same files in another order returns as well,
    with the same status table keys and statuses and, for every system
    call and every undefined symbol, the same applications up to their
    order. *)
Theorem counts_do_not_depend_on_order worksheet visited visited' st :
  visited' ≡ₚ visited →
  aggregate set_iter str_to_int worksheet visited = Return st →
  ∃ st',
    aggregate set_iter str_to_int worksheet visited' = Return st' ∧
    dict_keys (syscalls st') = dict_keys (syscalls st) ∧
    (∀ s,
       match dict_get s (syscalls st), dict_get s (syscalls st') with
       | Some entry, Some entry' =>
           sys_status entry' = sys_status entry ∧
           sys_apps entry' ≡ₚ sys_apps entry
       | None, None => True
       | _, _ => False
       end) ∧
    (∀ s,
       match dict_get s (undefined_syscalls st),
             dict_get s (undefined_syscalls st') with
       | Some entry, Some entry' => und_apps entry' ≡ₚ und_apps entry
       | None, None => True
       | _, _ => False
       end).
Proof.
  intros Hperm Hagg. unfold aggregate in *.
  apply bind_Return in Hagg as (sheet & Hsheet & Hagg).
  apply bind_Return in Hagg as (table & Htable & Hwalk).
  rewrite Hsheet. simpl. rewrite Htable. simpl.
  rewrite (walk_loaded set_iter) in *.
  set (st0 := {| apps := []; syscalls := table; undefined_syscalls := [] |})
    in *.
  assert (Hloaded : loaded visited' ≡ₚ loaded visited).
  { unfold loaded. by rewrite Hperm. }
  pose proof (run_spec set_iter set_iter_enum (loaded visited) st0) as Hspec.
  rewrite Hwalk in Hspec. destruct Hspec as (Hclean & Hkeys & Hsys & _).
  rewrite <- Hloaded in Hclean.
  destruct (run_returns _ _ Hclean) as [st' Hwalk'].
  pose proof (run_spec set_iter set_iter_enum (loaded visited') st0) as Hspec'.
  rewrite Hwalk' in Hspec'. destruct Hspec' as (_ & Hkeys' & Hsys' & _).
  exists st'. split_and!; [done | by rewrite Hkeys', Hkeys | |].
  - intros s. rewrite Hsys, Hsys'.
    destruct (dict_get s (syscalls st0)) as [entry|]; simpl; [|done].
    split; [done|]. by rewrite Hloaded.
  - intros s.
    rewrite (run_undefined _ _ _ Hwalk), (run_undefined _ _ _ Hwalk').
    destruct (dict_mem s (syscalls st0)); simpl; [done|].
    assert (Hnames : (filter (λ p, s ∈ symbols_of p.2) (loaded visited')).*1
                     ≡ₚ (filter (λ p, s ∈ symbols_of p.2)
                           (loaded visited)).*1)
      by by rewrite Hloaded.
    destruct ((filter _ (loaded visited)).*1) as [|n names].
    + apply Permutation_nil_r in Hnames. by rewrite Hnames.
    + destruct ((filter _ (loaded visited')).*1) as [|n' names'].
      * by apply Permutation_nil_cons in Hnames.
      * done.
Qed.

Lemma run_undefined_NoDup progs : ∀ st st',
  for_each (λ p, process_application_json set_iter p.1 p.2) progs st
  = Return st' →
  NoDup (dict_keys (undefined_syscalls st)) →
  NoDup (dict_keys (undefined_syscalls st')).
Proof.
  induction progs as [|[a d] progs IH]; intros st st'.
  - by intros [= <-].
  - intros (st1 & Hstep & Hrest)%run_cons Hnd. simpl in Hstep.
    apply (IH _ _ Hrest).
    by apply (process_table set_iter set_iter_enum _ _ _ _ Hstep).
Qed.

(** X13: main does the whole load whatever the flags are: when it fails
    main fails with the same exception, also with no flag set; when it
    returns, main writes the app report, if asked, then the syscall report,
    if asked, the table rows before the undefined ones, and nothing with
    no flag set. Printing never fails after a run that returned. *)
Theorem main_reports (args_apps args_syscalls : bool) worksheet visited :
  match aggregate set_iter str_to_int worksheet visited with
  | Return st =>
      main set_iter str_to_int args_apps args_syscalls worksheet visited
      = Return
          ((if args_apps
            then apps_header :: ((λ kv, app_line kv.1 kv.2) <$> apps st)
            else [])
           ++
           (if args_syscalls
            then syscalls_header
                 :: ((λ kv, csv [kv.1; sys_status kv.2;
                                 str_nat (length (sys_apps kv.2))])
                     <$> syscalls st)
                 ++ ((λ kv, csv [kv.1; "ABSENT";
                                 str_nat (length (und_apps kv.2))])
                     <$> undefined_syscalls st)
            else []))
  | Raise e =>
      main set_iter str_to_int args_apps args_syscalls worksheet visited
      = Raise e
  end.
Proof.
  unfold main.
  destruct (aggregate set_iter str_to_int worksheet visited) as [st|e] eqn:Hagg;
    [|done].
  destruct (aggregate_table _ _ _ Hagg) as (table & Hnd_table & _ & Hrun).
  pose proof (run_spec set_iter set_iter_enum (loaded visited)
                {| apps := []; syscalls := table;
                   undefined_syscalls := [] |}) as Hspec.
  rewrite Hrun in Hspec. destruct Hspec as (_ & Hkeys & _ & Hnd & Hwf & _).
  pose proof (run_undefined_NoDup _ _ _ Hrun) as Hnd_und. simpl in *.
  rewrite print_apps_spec by (apply Hnd || apply Hwf; constructor).
  rewrite print_syscalls_spec.
  rewrite !omap_rows by (by rewrite ?Hkeys; try apply Hnd_und; try constructor).
  by destruct args_apps, args_syscalls.
Qed.
End whole_run_more.

(** ** The syscall report on any state *)

Lemma omap_length_all {A B} (f : A → option B) (l : list A) :
  (∀ x, x ∈ l → is_Some (f x)) → length (omap f l) = length l.
Proof.
  induction l as [|x l IH]; intros Hall; [done|]. simpl.
  destruct (Hall x ltac:(left)) as [y ->]. simpl.
  f_equal. apply IH. intros. apply Hall. by right.
Qed.

(** X12: the syscall report never fails, whatever the state of the three
    dictionaries: it is the header and one line per entry of the status
    table and of the undefined system calls. *)
Theorem print_syscalls_never_raises st :
  ∃ lines,
    print_syscalls st = Return (syscalls_header :: lines) ∧
    length lines
    = length (syscalls st) + length (undefined_syscalls st).
Proof.
  eexists. split; [apply print_syscalls_spec|].
  rewrite length_app, !omap_length_all.
  - unfold dict_keys. by rewrite !length_fmap.
  - intros s Hs%dict_get_is_Some. by destruct Hs as [? ->].
  - intros s Hs%dict_get_is_Some. by destruct Hs as [? ->].
Qed.

(** ** File names *)

Lemma endswith_spec s suffix :
  endswith s suffix = true ↔ ∃ pre, s = pre +:+ suffix.
Proof.
  induction s as [|c s IH]; simpl.
  - rewrite orb_false_r, bool_decide_eq_true. split.
    + intros <-. by exists "".
    + intros [[|? ?] H]; simpl in H; [done | discriminate].
  - rewrite orb_true_iff, bool_decide_eq_true, IH. split.
    + intros [<- | [pre ->]]; [by exists "" | by exists (String c pre)].
    + intros [[|c' pre] H]; simpl in H; [by left|].
      injection H as -> ->. right. by exists pre.
Qed.

Lemma substring_prefix name rest :
  String.substring 0 (String.length name) (name +:+ rest) = name.
Proof.
  induction name as [|c name IH]; simpl; [by destruct rest|].
  by rewrite IH.
Qed.

Lemma length_append_5 name :
  String.length (name +:+ ".json") - 5 = String.length name.
Proof.
  assert (String.length (name +:+ ".json") = String.length name + 5) as ->.
  { induction name as [|c name IH]; simpl; [done | by rewrite IH]. }
  lia.
Qed.

Lemma strip5_json name : strip5 (name +:+ ".json") = name.
Proof. unfold strip5. rewrite length_append_5. apply substring_prefix. Qed.

Lemma separator_not_in_suffix subdir file :
  subdir +:+ String "/" file ≠ ".json".
Proof.
  do 6 (destruct subdir as [|? subdir]; [intros H; cbv in H; congruence|]).
  intros H. cbv in H. congruence.
Qed.

Lemma endswith_cons c s suffix :
  endswith (String c s) suffix
  = bool_decide (String c s = suffix) || endswith s suffix.
Proof. done. Qed.

(** The test on the path is a test on the file name. *)
Lemma path_endswith subdir file :
  endswith (subdir +:+ os_sep +:+ file) ".json" = endswith file ".json".
Proof.
  induction subdir as [|c subdir IH].
  - change ("" +:+ os_sep +:+ file) with (String "/" file).
    rewrite endswith_cons, bool_decide_eq_false_2; [done|].
    apply (separator_not_in_suffix "" file).
  - change (String c subdir +:+ os_sep +:+ file)
      with (String c (subdir +:+ os_sep +:+ file)).
    rewrite endswith_cons, IH, bool_decide_eq_false_2; [done|].
    apply (separator_not_in_suffix (String c subdir) file).
Qed.

(** X14: a walk loads exactly the visited files whose name is some name
    followed by ".json", whatever their directory, each under that name:
    the directory never makes a file count as JSON, and stripping the last
    five characters gives back the name before the suffix. *)
Theorem loaded_files visited name (json_data : json) :
  (name, json_data) ∈ loaded visited ↔
  ∃ subdir, (subdir, name +:+ ".json", json_data) ∈ visited.
Proof.
  unfold loaded. rewrite list_elem_of_omap. split.
  - intros ([[subdir file] doc] & Hin & Hsome).
    rewrite path_endswith in Hsome.
    destruct (endswith file ".json") eqn:E; [|done].
    injection Hsome as <- ->.
    apply endswith_spec in E as [pre ->].
    exists subdir. by rewrite strip5_json.
  - intros [subdir Hin]. exists (subdir, name +:+ ".json", json_data).
    split; [done|]. rewrite path_endswith.
    rewrite (proj2 (endswith_spec _ _)) by by exists name.
    by rewrite strip5_json.
Qed.

(** ** The line of one application *)

Section application_line.
Variable set_iter : pyset → list string.
Hypothesis set_iter_enum : ∀ X, set_iter X ≡ₚ elements (members X).

(** X15: on the line printed for an application that has just been
    processed, the total column and the absent column add up to the number
    of distinct symbols of the application. *)
Theorem total_plus_absent app_name json_data st st' :
  process_application_json set_iter app_name json_data st = Return st' →
  ∃ buckets,
    dict_get app_name (apps st') = Some buckets ∧
    print_app app_name st' = Return (app_line app_name buckets) ∧
    sum_list (length <$> (filter (λ kv, kv.1 ≠ "ABSENT") buckets).*2)
    + bucket_size buckets "ABSENT"
    = size (symbols_of json_data).
Proof.
  intros Hrun.
  destruct (process_Return_collect _ _ _ _ _ Hrun)
    as (local_set & Hcollect & ->).
  pose proof (process_spec set_iter set_iter_enum app_name json_data st _
                Hcollect) as Hspec.
  rewrite Hrun in Hspec.
  destruct Hspec as (_ & (buckets & Happs & Hkeys & _ & Hperm) & _).
  assert (Hget : dict_get app_name (apps st') = Some buckets).
  { rewrite Happs. apply dict_get_set_eq. }
  exists buckets. split_and!; [done | by apply print_app_line |].
  apply Permutation_length in Hperm. rewrite <- sum_length_concat in Hperm.
  unfold size, set_size. simpl. rewrite <- Hperm.
  destruct (buckets_shape _ Hkeys)
    as (l1 & l2 & l3 & l4 & l5 & l6 & l7 & l8 & l9 & ->).
  change (length l1 + (length l3 + (length l4 + (length l5 + (length l6
            + (length l7 + (length l8 + (length l9 + 0)))))))
          + length l2
          = length l1 + (length l2 + (length l3 + (length l4 + (length l5
            + (length l6 + (length l7 + (length l8
            + (length l9 + 0))))))))).
  lia.
Qed.

(** X16: when no entry of the status table has the status "ABSENT", the
    absent bucket of a processed application holds exactly its symbols
    that are not keys of the table, so the absent column counts them. *)
Theorem absent_counts_missing_symbols app_name json_data st st' :
  process_application_json set_iter app_name json_data st = Return st' →
  Forall (λ kv, sys_status kv.2 ≠ "ABSENT") (syscalls st) →
  ∃ buckets bucket,
    dict_get app_name (apps st') = Some buckets ∧
    dict_get "ABSENT" buckets = Some bucket ∧
    (∀ s, s ∈ bucket ↔
          s ∈ symbols_of json_data ∧ s ∉ dict_keys (syscalls st)) ∧
    bucket_size buckets "ABSENT"
    = size (filter (λ s, s ∉ dict_keys (syscalls st))
              (symbols_of json_data)).
Proof.
  intros Hrun Hstatus.
  destruct (process_buckets set_iter set_iter_enum _ _ _ _ Hrun)
    as (buckets & Happs & Hkeys & Hof).
  assert (is_Some (dict_get "ABSENT" buckets)) as [bucket Hbucket].
  { apply dict_get_is_Some. rewrite Hkeys. unfold bucket_keys. set_solver. }
  destruct (Hof _ _ Hbucket) as [Hnd Hin].
  assert (Hmissing : ∀ s, s ∈ bucket ↔
            s ∈ symbols_of json_data ∧ s ∉ dict_keys (syscalls st)).
  { intros s. rewrite Hin, <- dict_get_None. unfold status_of.
    destruct (dict_get s (syscalls st)) as [entry|] eqn:E; [|naive_solver].
    pose proof (dict_get_Forall (λ e, sys_status e ≠ "ABSENT") _ _ _
                  Hstatus E).
    naive_solver. }
  exists buckets, bucket. split_and!; [| done | done |].
  - rewrite Happs. apply dict_get_set_eq.
  - unfold bucket_size. rewrite Hbucket. simpl.
    unfold size, set_size. simpl. apply Permutation_length.
    apply NoDup_Permutation; [done | apply NoDup_elements |].
    intros s. rewrite Hmissing, elem_of_elements, elem_of_filter.
    naive_solver.
Qed.
End application_line.

(** ** The further statements on the sample inputs *)

Lemma walk_keeps_table_witness :
  ∃ st',
    walk_application_json_folder sample_iter sample_visited sample_state
    = Return st' ∧
    dict_keys (syscalls st') = dict_keys (syscalls sample_state) ∧
    ∀ s,
      match dict_get s (syscalls sample_state), dict_get s (syscalls st') with
      | Some entry, Some entry' =>
          sys_id entry' = sys_id entry ∧
          sys_name entry' = sys_name entry ∧
          sys_status entry' = sys_status entry ∧
          sys_apps entry `prefix_of` sys_apps entry'
      | None, None => True
      | _, _ => False
      end.
Proof.
  eexists. split; [vm_compute; reflexivity|].
  apply (walk_keeps_table sample_iter sample_iter_enum sample_visited
           sample_state).
  vm_compute; reflexivity.
Defined.

Lemma undefined_apps_in_load_order_witness :
  ∃ st,
    aggregate sample_iter decimal_int sample_sheet sample_visited = Return st ∧
    dict_get "xyz_unknown" (undefined_syscalls st)
    = if dict_mem "xyz_unknown" (syscalls st) then None
      else
        match (filter (λ p, "xyz_unknown" ∈ symbols_of p.2)
                 (loaded sample_visited)).*1 with
        | [] => None
        | names => Some {| und_name := "xyz_unknown"; und_apps := names |}
        end.
Proof.
  eexists. split; [vm_compute; reflexivity|].
  apply (undefined_apps_in_load_order sample_iter sample_iter_enum
           decimal_int sample_sheet sample_visited).
  vm_compute; reflexivity.
Defined.

Lemma apps_last_document_wins_witness :
  ∃ st,
    aggregate sample_iter decimal_int sample_sheet sample_visited = Return st ∧
    NoDup (dict_keys (apps st)) ∧
    (∀ a, a ∈ dict_keys (apps st) ↔ a ∈ (loaded sample_visited).*1) ∧
    ∀ a,
      match last (filter (λ p, p.1 = a) (loaded sample_visited)) with
      | Some p =>
          ∃ buckets,
            dict_get a (apps st) = Some buckets ∧
            buckets_of (syscalls st) (symbols_of p.2) buckets
      | None => dict_get a (apps st) = None
      end.
Proof.
  eexists. split; [vm_compute; reflexivity|].
  apply (apps_last_document_wins sample_iter sample_iter_enum decimal_int
           sample_sheet sample_visited).
  vm_compute; reflexivity.
Defined.

Lemma references_conserved_witness :
  ∃ st,
    aggregate sample_iter decimal_int sample_sheet sample_visited = Return st ∧
    refs_recorded st
    = sum_list ((λ p, size (symbols_of p.2)) <$> loaded sample_visited).
Proof.
  eexists. split; [vm_compute; reflexivity|].
  apply (references_conserved sample_iter sample_iter_enum decimal_int
           sample_sheet sample_visited).
  vm_compute; reflexivity.
Defined.

Lemma counts_do_not_depend_on_order_witness :
  ∃ st,
    reverse sample_visited ≡ₚ sample_visited ∧
    aggregate sample_iter decimal_int sample_sheet sample_visited = Return st ∧
    ∃ st',
      aggregate sample_iter decimal_int sample_sheet (reverse sample_visited)
      = Return st' ∧
      dict_keys (syscalls st') = dict_keys (syscalls st) ∧
      (∀ s,
         match dict_get s (syscalls st), dict_get s (syscalls st') with
         | Some entry, Some entry' =>
             sys_status entry' = sys_status entry ∧
             sys_apps entry' ≡ₚ sys_apps entry
         | None, None => True
         | _, _ => False
         end) ∧
      (∀ s,
         match dict_get s (undefined_syscalls st),
               dict_get s (undefined_syscalls st') with
         | Some entry, Some entry' => und_apps entry' ≡ₚ und_apps entry
         | None, None => True
         | _, _ => False
         end).
Proof.
  eexists. split; [apply reverse_Permutation|].
  split; [vm_compute; reflexivity|].
  apply (counts_do_not_depend_on_order sample_iter sample_iter_enum
           decimal_int sample_sheet sample_visited (reverse sample_visited)).
  - apply reverse_Permutation.
  - vm_compute; reflexivity.
Defined.

Lemma main_reports_witness :
  match aggregate sample_iter decimal_int sample_sheet sample_visited with
  | Return st =>
      main sample_iter decimal_int true true sample_sheet sample_visited
      = Return
          (apps_header :: ((λ kv, app_line kv.1 kv.2) <$> apps st)
           ++ syscalls_header
              :: ((λ kv, csv [kv.1; sys_status kv.2;
                              str_nat (length (sys_apps kv.2))])
                  <$> syscalls st)
              ++ ((λ kv, csv [kv.1; "ABSENT";
                              str_nat (length (und_apps kv.2))])
                  <$> undefined_syscalls st))
  | Raise e =>
      main sample_iter decimal_int true true sample_sheet sample_visited
      = Raise e
  end.
Proof.
  apply (main_reports sample_iter sample_iter_enum decimal_int true true
           sample_sheet sample_visited).
Defined.

Lemma total_plus_absent_witness :
  ∃ st',
    process_application_json sample_iter "app1" sample_app1 sample_state
    = Return st' ∧
    ∃ buckets,
      dict_get "app1" (apps st') = Some buckets ∧
      print_app "app1" st' = Return (app_line "app1" buckets) ∧
      sum_list (length <$> (filter (λ kv, kv.1 ≠ "ABSENT") buckets).*2)
      + bucket_size buckets "ABSENT"
      = size (symbols_of sample_app1).
Proof.
  eexists. split; [vm_compute; reflexivity|].
  apply (total_plus_absent sample_iter sample_iter_enum "app1" sample_app1
           sample_state).
  vm_compute; reflexivity.
Defined.

Lemma absent_counts_missing_symbols_witness :
  ∃ st',
    process_application_json sample_iter "app1" sample_app1 sample_state
    = Return st' ∧
    Forall (λ kv, sys_status kv.2 ≠ "ABSENT") (syscalls sample_state) ∧
    ∃ buckets bucket,
      dict_get "app1" (apps st') = Some buckets ∧
      dict_get "ABSENT" buckets = Some bucket ∧
      (∀ s, s ∈ bucket ↔
            s ∈ symbols_of sample_app1
            ∧ s ∉ dict_keys (syscalls sample_state)) ∧
      bucket_size buckets "ABSENT"
      = size (filter (λ s, s ∉ dict_keys (syscalls sample_state))
                (symbols_of sample_app1)).
Proof.
  eexists. split; [vm_compute; reflexivity|].
  split; [by_computation|].
  apply (absent_counts_missing_symbols sample_iter sample_iter_enum "app1"
           sample_app1 sample_state).
  - vm_compute; reflexivity.
  - by_computation.
Defined.

(** ** Statuses the loader can give *)

(** X17: the status the loader gives a row is one of the nine bucket keys
    exactly when the cell is empty, holds one of the seven trigger words,
    or is itself a bucket key; every other text is kept and is a status no
    bucket exists for. The status is never the empty string. *)
Theorem normalize_bucket_key s :
  (normalize s ∈ bucket_keys ↔
   s = "" ∨
   (∃ trigger,
      trigger ∈ ["incomplete"; "registration missing"; "stubbed"; "planned";
                 "progress"; "broken"; "okay"] ∧
      Substring trigger s) ∨
   s ∈ bucket_keys) ∧
  normalize s ≠ "".
Proof.
  pose proof (normalize_Normalized s) as Hn.
  assert (Hkeys : ∀ c, c ∈ bucket_keys → normalize c = c).
  { intros c Hc. unfold bucket_keys in Hc.
    repeat (apply elem_of_cons in Hc as [->|Hc]; [done|]).
    by apply elem_of_nil in Hc. }
  split.
  - split.
    + intros Hin. destruct Hn; try (right; left; eexists; split;
                                     [|eassumption]; set_solver).
      * by left.
      * by right; right.
    + intros [->|[(trigger & Hin & Hsub)|Hin]].
      * unfold bucket_keys. set_solver.
      * destruct Hn; unfold bucket_keys; set_solver.
      * by rewrite Hkeys.
  - by destruct Hn.
Qed.
